(** * CodeBLEU evaluator: a shallow embedding of [codebleu_evaluator.py]

    The scoring engine of the repository (tokenizer, n-gram BLEU,
    keyword-weighted BLEU, AST and control-flow matching, the composite
    score and the dataset aggregator) is transcribed function by function.

    Modelling conventions.
    - Python [str] is [string], a sequence of 8-bit characters.  Token
      lists, reference lists and n-grams are [list]s; a [Counter] /
      [defaultdict(int)] is an association list in insertion order with a
      default of [0]; lengths and counts are natural numbers, and so is
      [max_n] where it counts the n-gram orders ([calculate_bleu_score_int]
      takes it as the Python [int] it is).
    - The scores are modelled by the real numbers: [math.exp] and
      [math.log] are [exp] and [ln], and [x ** 0.5] on a non-negative
      argument is [sqrt].  Rounding is not part of that model.  The weight
      check of the constructor, whose outcome depends on rounding, is
      modelled on IEEE binary64 numbers (module [Binary64]), where the
      variance used by [std] is evaluated as well.
    - A Python exception is a value [Raise e] of the [result] type; a
      [try/except] is a [match] on it.  Logging is left out.
    - The standard-library services the code calls ([re.sub],
      [re.findall], [str.lower], [ast.parse], [datetime.now]) are fields
      of a record [PyLib] over which every definition is parameterised;
      [PyRef.lib] is an executable instance. *)

From Stdlib Require Import List ListSet Arith Lia Bool Ascii String.
From Stdlib Require Import Reals Lra.
From Stdlib Require Import ZArith.
From Stdlib Require Import Permutation Sorted.
From Stdlib Require OrderedTypeEx.
From Stdlib Require Floats Uint63.
Import ListNotations.

#[local] Open Scope string_scope.
#[local] Open Scope list_scope.
#[local] Open Scope nat_scope.

(** ** Exceptions and results *)

Inductive exn : Type :=
| ZeroDivisionError
| ValueError (msg : string)
| OtherException (name : string).

Inductive result (A : Type) : Type :=
| Ok (a : A)
| Raise (e : exn).

Arguments Ok {A} a.
Arguments Raise {A} e.

Definition bind {A B : Type} (r : result A) (k : A -> result B) : result B :=
  match r with
  | Ok a => k a
  | Raise e => Raise e
  end.

Notation "x <- r ;; k" := (bind r (fun x => k))
  (at level 61, r at next level, right associativity).

Definition is_ok {A : Type} (r : result A) : bool :=
  match r with
  | Ok _ => true
  | Raise _ => false
  end.

(** ** Floats as reals, with boolean comparisons *)

Abbreviation float := R (only parsing).

Definition float_lt (a b : float) : bool := if Rlt_dec a b then true else false.
Definition float_le (a b : float) : bool := if Rle_dec a b then true else false.
Definition float_eq (a b : float) : bool := if Req_dec_T a b then true else false.

(** [max(a, b)] and [min(a, b)] of Python keep the first argument unless
    the second is strictly better. *)
Definition py_max (a b : float) : float := if float_lt a b then b else a.
Definition py_min (a b : float) : float := if float_lt b a then b else a.

(** [sum(values)]: left fold from the integer [0]. *)
Definition py_sum (values : list float) : float := fold_left Rplus values 0%R.

(** [max(values)] and [min(values)] on a non-empty list (head given apart). *)
Definition py_max_list (v0 : float) (values : list float) : float :=
  fold_left py_max values v0.
Definition py_min_list (v0 : float) (values : list float) : float :=
  fold_left py_min values v0.

(** ** Strings *)

Definition token : Type := string.
Definition ngram : Type := list token.

Fixpoint ngram_eqb (a b : ngram) : bool :=
  match a, b with
  | [], [] => true
  | x :: a', y :: b' => String.eqb x y && ngram_eqb a' b'
  | _, _ => false
  end.

(** [needle in hay] on strings. *)
Fixpoint contains (needle hay : string) : bool :=
  String.prefix needle hay ||
  match hay with
  | EmptyString => false
  | String _ hay' => contains needle hay'
  end.

Definition str_in (s : string) (l : list string) : bool :=
  existsb (String.eqb s) l.

(** Case folding and whitespace on the ASCII range: [lower] is what
    [str.lower] does on ASCII text, and serves as its executable instance. *)
Definition lower_ascii (c : ascii) : ascii :=
  let n := nat_of_ascii c in
  if ((65 <=? n) && (n <=? 90))%nat then ascii_of_nat (n + 32) else c.

Fixpoint lower (s : string) : string :=
  match s with
  | EmptyString => EmptyString
  | String c s' => String (lower_ascii c) (lower s')
  end.

Definition is_space (c : ascii) : bool :=
  let n := nat_of_ascii c in
  (((9 <=? n) && (n <=? 13)) || ((28 <=? n) && (n <=? 32)))%nat.

(** Truth value of [token.strip()]: some character is not whitespace. *)
Fixpoint strip_nonempty (s : string) : bool :=
  match s with
  | EmptyString => false
  | String c s' => negb (is_space c) || strip_nonempty s'
  end.

(** ** Standard-library services *)

Inductive re_flag : Type := NOFLAG | MULTILINE | DOTALL | IGNORECASE.

(** A parse tree as [ast.walk] sees it: a node type name and children. *)
#[local] Set Warnings "-register-all".
Inductive ast : Type :=
| Node (type_name : string) (children : list ast).

Inductive parse_outcome : Type :=
| Parsed (tree : ast)
| SyntaxError
| ParseRaises (e : exn).

Record PyLib : Type := {
  (** [re.sub(pattern, '', s, flags=flag)] *)
  re_sub_empty : string -> re_flag -> string -> string;
  (** [re.findall(pattern, s, flag)] *)
  re_findall : string -> re_flag -> string -> list string;
  (** [s.lower()] *)
  str_lower : string -> string;
  (** [ast.parse(code)]: a tree, a [SyntaxError], or another exception *)
  ast_parse : string -> parse_outcome;
  (** [datetime.now().isoformat()] *)
  now_isoformat : string
}.

(** ** Counters *)

Module Counter.

Definition t : Type := list (ngram * nat).

Fixpoint get (k : ngram) (c : t) : nat :=
  match c with
  | [] => 0
  | (k', v) :: c' => if ngram_eqb k k' then v else get k c'
  end.

(** [c[k] += 1], a new key going last. *)
Fixpoint incr (k : ngram) (c : t) : t :=
  match c with
  | [] => [(k, 1)]
  | (k', v) :: c' =>
      if ngram_eqb k k' then (k', S v) :: c' else (k', v) :: incr k c'
  end.

(** [c[k] = max(c[k], v)] on a [defaultdict(int)]. *)
Fixpoint set_max (k : ngram) (v : nat) (c : t) : t :=
  match c with
  | [] => [(k, Nat.max 0 v)]
  | (k', v') :: c' =>
      if ngram_eqb k k' then (k', Nat.max v' v) :: c'
      else (k', v') :: set_max k v c'
  end.

(** [Counter(items)] *)
Definition of_list (items : list ngram) : t :=
  fold_left (fun c k => incr k c) items [].

(** [sum(c.values())] *)
Definition total (c : t) : nat :=
  fold_left (fun acc kv => acc + snd kv) c 0.

(** The keys of a dictionary are pairwise distinct. *)
Definition wf (c : t) : Prop := NoDup (map fst c).

End Counter.

(** ** Binary64 arithmetic

    IEEE binary64 numbers, for the weight check of the constructor and
    for the variance behind [std].  [x ** 2] is taken as [x * x]. *)

#[local] Set Warnings "-inexact-float".

Module Binary64.

Import PrimFloat FloatOps SpecFloat.

(** The real number a finite binary64 number stands for.  An infinity and
    a NaN stand for none; they are given [0]. *)
Definition to_R (x : float) : R :=
  match Prim2SF x with
  | S754_finite s m e =>
      ((if s then -1 else 1) * IZR (Zpos m) * powerRZ 2 e)%R
  | _ => 0%R
  end.

(** An infinity or a NaN. *)
Definition nonfinite (x : float) : bool :=
  match Prim2SF x with
  | S754_infinity _ | S754_nan => true
  | _ => false
  end.

Definition of_nat (n : nat) : float := of_uint63 (Uint63.of_Z (Z.of_nat n)).

Definition sum (values : list float) : float := fold_left add values 0%float.

(** [math.isclose(a, b, rel_tol=rel_tol)] with the default [abs_tol=0.0]. *)
Definition isclose (a b rel_tol : float) : bool :=
  if eqb a b then true
  else if is_infinity a || is_infinity b then false
  else
    let diff := abs (sub b a) in
    leb diff (abs (mul rel_tol b))
    || leb diff (abs (mul rel_tol a))
    || leb diff 0%float.

(** [math.isclose(alpha + beta + gamma + delta, 1.0, rel_tol=1e-9)], the
    sum taken from left to right: the condition under which [__init__]
    does not raise. *)
Definition weights_accepted (alpha beta gamma delta : float) : bool :=
  isclose (add (add (add alpha beta) gamma) delta) 1%float 1e-9%float.

(** The number whose [** 0.5] is the [std] of [values]. *)
Definition variance (values : list float) : float :=
  let len := of_nat (List.length values) in
  sum (map (fun x => mul (sub x (div (sum values) len))
                         (sub x (div (sum values) len)))
           values)
  / len.

End Binary64.

(** ** The evaluator *)

(** The weight vector held by a [CodeBLEUEvaluator] instance.  The keyword
    table is the same for every instance and is the constant [keywords]. *)
Record CodeBLEUEvaluator : Type := {
  alpha : float;
  beta : float;
  gamma : float;
  delta : float
}.

(** [CodeBLEUEvaluator.__init__].  The weights are binary64 numbers and
    the check, [Binary64.weights_accepted], is made on their binary64 sum;
    a weight vector that passes is stored as it is, each weight entering
    the scores as the real number it stands for. *)
Definition init (alpha beta gamma delta : PrimFloat.float)
  : result CodeBLEUEvaluator :=
  if negb (Binary64.weights_accepted alpha beta gamma delta)
  then Raise (ValueError "Weights must sum to 1.0")
  else Ok {| alpha := Binary64.to_R alpha; beta := Binary64.to_R beta;
             gamma := Binary64.to_R gamma; delta := Binary64.to_R delta |}.

(** Default arguments of [__init__]. *)
Definition default_evaluator : CodeBLEUEvaluator :=
  {| alpha := (25 / 100)%R; beta := (25 / 100)%R;
     gamma := (25 / 100)%R; delta := (25 / 100)%R |}.

Definition python_keywords : list string :=
  ["def"; "class"; "if"; "else"; "elif"; "for"; "while"; "try"; "except";
   "finally"; "with"; "import"; "from"; "return"; "yield"; "lambda";
   "and"; "or"; "not"; "in"; "is"; "global"; "nonlocal"; "assert";
   "break"; "continue"; "pass"; "raise"; "del"; "True"; "False"; "None"].

Definition javascript_keywords : list string :=
  ["function"; "var"; "let"; "const"; "if"; "else"; "for"; "while"; "do";
   "switch"; "case"; "default"; "break"; "continue"; "return"; "try"; "catch";
   "finally"; "throw"; "new"; "this"; "typeof"; "instanceof"; "in"; "of";
   "true"; "false"; "null"; "undefined"; "class"; "extends"; "super";
   "static"; "async"; "await"; "yield"; "import"; "export"; "from"].

Definition java_keywords : list string :=
  ["class"; "interface"; "enum"; "public"; "private"; "protected"; "static";
   "final"; "abstract"; "synchronized"; "volatile"; "transient"; "native";
   "if"; "else"; "for"; "while"; "do"; "switch"; "case"; "default";
   "break"; "continue"; "return"; "try"; "catch"; "finally"; "throw";
   "throws"; "new"; "this"; "super"; "instanceof"; "true"; "false"; "null"].

(** [self.keywords] *)
Definition keywords : list (string * list string) :=
  [("python", python_keywords);
   ("javascript", javascript_keywords);
   ("java", java_keywords)].

(** [self.keywords.get(language, set())] *)
Fixpoint dict_get (table : list (string * list string)) (language : string)
  : list string :=
  match table with
  | [] => []
  | (l, ks) :: table' => if String.eqb language l then ks else dict_get table' language
  end.

(** [_get_ngrams]: the n-grams at positions [0 .. len(tokens) - n]. *)
Definition ngrams_of (tokens : list token) (n : nat) : list ngram :=
  map (fun i => firstn n (skipn i tokens)) (seq 0 (List.length tokens + 1 - n)).

Definition _get_ngrams (tokens : list token) (n : nat) : Counter.t :=
  Counter.of_list (ngrams_of tokens n).

(** The [max_counts] table built from the references' counters. *)
Definition max_counts_of (reference_ngrams : list Counter.t) : Counter.t :=
  fold_left
    (fun max_counts ref_ngrams =>
       fold_left (fun mc kv => Counter.set_max (fst kv) (snd kv) mc)
                 ref_ngrams max_counts)
    reference_ngrams [].

(** Body of the loop over [n] in [calculate_bleu_score]: the precision
    appended to [precisions] for order [n]. *)
Definition ngram_precision (candidate : list token)
  (references : list (list token)) (n : nat) : float :=
  let candidate_ngrams := _get_ngrams candidate n in
  let reference_ngrams := map (fun ref => _get_ngrams ref n) references in
  match candidate_ngrams with
  | [] => 0%R
  | _ :: _ =>
      let max_counts := max_counts_of reference_ngrams in
      let total := Counter.total candidate_ngrams in
      let correct :=
        fold_left
          (fun correct kv =>
             correct + Nat.min (snd kv) (Counter.get (fst kv) max_counts))
          candidate_ngrams 0 in
      if 0 <? total then (INR correct / INR total)%R else 0%R
  end.

Definition abs_diff (a b : nat) : nat := (a - b) + (b - a).

(** [min(references, key=...)] on [ref0 :: refs]: the first reference of
    least key. *)
Definition closest_ref (candidate_length : nat) (ref0 : list token)
  (refs : list (list token)) : list token :=
  fold_left
    (fun best ref =>
       if abs_diff (List.length ref) candidate_length
          <? abs_diff (List.length best) candidate_length
       then ref else best)
    refs ref0.

(** The value given to [brevity_penalty] in [calculate_bleu_score]. *)
Definition brevity_penalty_of (candidate_length reference_length : nat) : float :=
  if reference_length <? candidate_length then 1%R
  else if 0 <? candidate_length
       then exp (1 - INR reference_length / INR candidate_length)
       else 0%R.

(** [calculate_bleu_score] *)
Definition calculate_bleu_score (candidate : list token)
  (references : list (list token)) (max_n : nat) : result float :=
  match candidate, references with
  | [], _ => Ok 0%R
  | _, [] => Ok 0%R
  | _ :: _, ref0 :: refs =>
      let precisions :=
        map (ngram_precision candidate references) (seq 1 max_n) in
      let candidate_length := List.length candidate in
      let closest_ref_length := closest_ref candidate_length ref0 refs in
      let reference_length := List.length closest_ref_length in
      let brevity_penalty := brevity_penalty_of candidate_length reference_length in
      if existsb (fun p => float_eq p 0%R) precisions then Ok 0%R
      else
        let log_precision_sum := py_sum (map ln precisions) in
        match List.length precisions with
        | 0 => Raise ZeroDivisionError
        | S _ =>
            let geo_mean :=
              exp (log_precision_sum / INR (List.length precisions)) in
            Ok (brevity_penalty * geo_mean)%R
        end
  end.

(** [calculate_bleu_score] with [max_n] the Python [int] it is:
    [range(1, max_n + 1)] runs over [1 .. max_n] when [max_n] is positive
    and is empty otherwise. *)
Definition calculate_bleu_score_int (candidate : list token)
  (references : list (list token)) (max_n : Z) : result float :=
  calculate_bleu_score candidate references (Z.to_nat max_n).

(** The local function [weight_tokens] of [calculate_weighted_bleu_score]. *)
Definition weight_tokens (keywords : list string) (tokens : list token)
  : list token :=
  flat_map (fun token => if str_in token keywords then [token; token] else [token])
           tokens.

(** [calculate_weighted_bleu_score]; the inner call uses the default
    [max_n = 4]. *)
Definition calculate_weighted_bleu_score (candidate : list token)
  (references : list (list token)) (language : string) : result float :=
  let keywords := dict_get keywords language in
  let weighted_candidate := weight_tokens keywords candidate in
  let weighted_references := map (weight_tokens keywords) references in
  calculate_bleu_score weighted_candidate weighted_references 4.

(** [ast.walk]: breadth-first, i.e. level by level from the root. *)
Fixpoint depth (t : ast) : nat :=
  match t with
  | Node _ children => S (fold_right (fun c d => Nat.max (depth c) d) 0 children)
  end.

Fixpoint names_at (d : nat) (t : ast) {struct d} : list string :=
  match t, d with
  | Node name _, 0 => [name]
  | Node _ children, S d' => flat_map (names_at d') children
  end.

(** [_extract_ast_nodes]: [type(node).__name__] for each walked node. *)
Definition _extract_ast_nodes (tree : ast) : list string :=
  flat_map (fun d => names_at d tree) (seq 0 (depth tree)).

(** [set(l)] as a duplicate-free list. *)
Definition to_set (l : list string) : list string := nodup string_dec l.

(** The score of one reference, as the three matchers compute it in their
    loop bodies: 1 when both lists are empty, 0 when exactly one is, else
    [len(set(a) & set(b)) / len(set(a) | set(b))]. *)
Definition similarity (candidate_items ref_items : list string) : float :=
  match candidate_items, ref_items with
  | [], [] => 1%R
  | [], _ :: _ => 0%R
  | _ :: _, [] => 0%R
  | _ :: _, _ :: _ =>
      let common :=
        List.length (set_inter string_dec (to_set candidate_items) (to_set ref_items)) in
      let total :=
        List.length (set_union string_dec (to_set candidate_items) (to_set ref_items)) in
      if 0 <? total then (INR common / INR total)%R else 0%R
  end.

Section Engine.

Variable lib : PyLib.

(** [tokenize_code] *)
Definition tokenize_code (code language : string) : list token :=
  let code :=
    if String.eqb language "python" then
      re_sub_empty lib "#.*$" MULTILINE code
    else if str_in language ["javascript"; "java"] then
      let code := re_sub_empty lib "//.*$" MULTILINE code in
      re_sub_empty lib "/\*.*?\*/" DOTALL code
    else code in
  let tokens := re_findall lib "\b\w+\b|[^\w\s]" NOFLAG (str_lower lib code) in
  filter strip_nonempty tokens.

(** The [for ref_code in reference_codes] loop of
    [_calculate_python_ast_score]. *)
Fixpoint python_ast_loop (candidate_nodes : list string)
  (reference_codes : list string) (max_score : float) : result float :=
  match reference_codes with
  | [] => Ok max_score
  | ref_code :: rest =>
      match ast_parse lib ref_code with
      | Parsed ref_ast =>
          let ref_nodes := _extract_ast_nodes ref_ast in
          let score := similarity candidate_nodes ref_nodes in
          python_ast_loop candidate_nodes rest (py_max max_score score)
      | SyntaxError => python_ast_loop candidate_nodes rest max_score
      | ParseRaises e => Raise e
      end
  end.

(** [_calculate_python_ast_score] *)
Definition _calculate_python_ast_score (candidate_code : string)
  (reference_codes : list string) : result float :=
  match ast_parse lib candidate_code with
  | Parsed candidate_ast =>
      let candidate_nodes := _extract_ast_nodes candidate_ast in
      python_ast_loop candidate_nodes reference_codes 0%R
  | SyntaxError => Ok 0%R
  | ParseRaises e => Raise e
  end.

(** [_extract_code_structures] *)
Definition _extract_code_structures (code language : string) : list string :=
  if String.eqb language "javascript" then
    re_findall lib "function\s+(\w+)" NOFLAG code
    ++ re_findall lib "class\s+(\w+)" NOFLAG code
    ++ re_findall lib "(\w+)\s*:\s*function" NOFLAG code
    ++ re_findall lib "const\s+(\w+)\s*=\s*\([^)]*\)\s*=>" NOFLAG code
  else if String.eqb language "java" then
    re_findall lib "class\s+(\w+)" NOFLAG code
    ++ re_findall lib "interface\s+(\w+)" NOFLAG code
    ++ re_findall lib "public\s+\w+\s+(\w+)\s*\(" NOFLAG code
    ++ re_findall lib "private\s+\w+\s+(\w+)\s*\(" NOFLAG code
  else [].

(** [_calculate_structural_similarity] *)
Definition _calculate_structural_similarity (candidate : string)
  (references : list string) (language : string) : float :=
  let candidate_structures := _extract_code_structures candidate language in
  fold_left
    (fun max_score ref =>
       let ref_structures := _extract_code_structures ref language in
       py_max max_score (similarity candidate_structures ref_structures))
    references 0%R.

(** [calculate_ast_matching_score] *)
Definition calculate_ast_matching_score (candidate_code : string)
  (reference_codes : list string) (language : string) : result float :=
  if String.eqb language "python" then
    _calculate_python_ast_score candidate_code reference_codes
  else
    Ok (_calculate_structural_similarity candidate_code reference_codes language).

Definition control_flow_patterns : list string :=
  ["\bif\s*\("; "\belse\b"; "\belif\s*\("; "\bfor\s*\("; "\bwhile\s*\(";
   "\btry\b"; "\bcatch\b"; "\bfinally\b"; "\bswitch\s*\("; "\bcase\s+";
   "\bbreak\b"; "\bcontinue\b"; "\breturn\b"].

(** [_extract_control_flow]; the [language] argument is unused there. *)
Definition _extract_control_flow (code language : string) : list string :=
  flat_map (fun pattern => re_findall lib pattern IGNORECASE code)
           control_flow_patterns.

(** [calculate_control_flow_score] *)
Definition calculate_control_flow_score (candidate_code : string)
  (reference_codes : list string) (language : string) : float :=
  let candidate_cf := _extract_control_flow candidate_code language in
  fold_left
    (fun max_score ref_code =>
       let ref_cf := _extract_control_flow ref_code language in
       py_max max_score (similarity candidate_cf ref_cf))
    reference_codes 0%R.

(** [detect_language] *)
Definition detect_language (code : string) : string :=
  if existsb (fun indicator => contains indicator code)
       ["def "; "import "; "from "; "__init__"; "self."] then "python"
  else if existsb (fun indicator => contains indicator code)
       ["function "; "var "; "let "; "const "; "=>"] then "javascript"
  else if existsb (fun indicator => contains indicator code)
       ["public class"; "private "; "public static void"] then "java"
  else "python".

(** The [reference_codes] argument of [evaluate]: a string or a list. *)
Inductive reference_arg : Type :=
| OneRef (reference : string)
| ManyRefs (references : list string).

(** The dictionary returned by [evaluate]. *)
Record EvaluationResult : Type := {
  codebleu : float;
  bleu : float;
  weighted_bleu : float;
  ast_match : float;
  control_flow : float;
  language : string;
  weights : CodeBLEUEvaluator
}.

(** [evaluate] *)
Definition evaluate (self : CodeBLEUEvaluator) (candidate_code : string)
  (reference_codes : reference_arg) (language : option string)
  : result EvaluationResult :=
  let reference_codes :=
    match reference_codes with
    | OneRef reference => [reference]
    | ManyRefs references => references
    end in
  let language :=
    match language with
    | None => detect_language candidate_code
    | Some l => l
    end in
  let candidate_tokens := tokenize_code candidate_code language in
  let reference_tokens_list :=
    map (fun ref => tokenize_code ref language) reference_codes in
  bleu_score <- calculate_bleu_score candidate_tokens reference_tokens_list 4 ;;
  weighted_bleu_score <-
    calculate_weighted_bleu_score candidate_tokens reference_tokens_list language ;;
  ast_score <- calculate_ast_matching_score candidate_code reference_codes language ;;
  let cf_score := calculate_control_flow_score candidate_code reference_codes language in
  let codebleu_score :=
    (alpha self * bleu_score
     + beta self * weighted_bleu_score
     + gamma self * ast_score
     + delta self * cf_score)%R in
  Ok {| codebleu := codebleu_score;
        bleu := bleu_score;
        weighted_bleu := weighted_bleu_score;
        ast_match := ast_score;
        control_flow := cf_score;
        language := language;
        weights := {| alpha := alpha self; beta := beta self;
                      gamma := gamma self; delta := delta self |} |}.

(** ** The dataset evaluator *)

(** One element of [self.results]. *)
Record ResultEntry : Type := {
  index : nat;
  scores : EvaluationResult;
  generated_code : string;
  reference_code : string
}.

(** [CodeBLEUDatasetEvaluator]: the wrapped evaluator and [self.results]. *)
Record CodeBLEUDatasetEvaluator : Type := {
  evaluator : CodeBLEUEvaluator;
  results : list ResultEntry
}.

(** The per-metric dictionary [{'mean', 'max', 'min', 'std'}]. *)
Record MetricStats : Type := {
  mean : float;
  max : float;
  min : float;
  std : float
}.

(** The non-empty dictionary returned by [evaluate_dataset]. *)
Record Aggregated : Type := {
  agg_codebleu : MetricStats;
  agg_bleu : MetricStats;
  agg_weighted_bleu : MetricStats;
  agg_ast_match : MetricStats;
  agg_control_flow : MetricStats;
  total_pairs : nat;
  evaluation_time : string
}.

(** The statistics of one metric over [values = v0 :: vs]. *)
Definition metric_stats (v0 : float) (vs : list float) : MetricStats :=
  let values := v0 :: vs in
  let len := INR (List.length values) in
  {| mean := (py_sum values / len)%R;
     max := py_max_list v0 vs;
     min := py_min_list v0 vs;
     std := sqrt (py_sum (map (fun x => ((x - py_sum values / len) ^ 2)%R) values)
                  / len) |}.

(** The [for i, (generated, reference) in enumerate(dataset)] loop, from
    position [i], threading [individual_scores] and [self.results]. *)
Fixpoint evaluate_loop (self : CodeBLEUDatasetEvaluator) (i : nat)
  (dataset : list (string * string))
  (individual_scores : list EvaluationResult)
  : list EvaluationResult * CodeBLEUDatasetEvaluator :=
  match dataset with
  | [] => (individual_scores, self)
  | (generated, reference) :: rest =>
      match evaluate (evaluator self) generated (OneRef reference) None with
      | Ok scores =>
          let entry := {| index := i; scores := scores;
                          generated_code := generated;
                          reference_code := reference |} in
          evaluate_loop
            {| evaluator := evaluator self; results := results self ++ [entry] |}
            (S i) rest (individual_scores ++ [scores])
      | Raise _ => evaluate_loop self (S i) rest individual_scores
      end
  end.

(** The aggregate over a non-empty [individual_scores = s0 :: ss]. *)
Definition aggregate (s0 : EvaluationResult) (ss : list EvaluationResult)
  : Aggregated :=
  let stats metric := metric_stats (metric s0) (map metric ss) in
  {| agg_codebleu := stats codebleu;
     agg_bleu := stats bleu;
     agg_weighted_bleu := stats weighted_bleu;
     agg_ast_match := stats ast_match;
     agg_control_flow := stats control_flow;
     total_pairs := List.length (s0 :: ss);
     evaluation_time := now_isoformat lib |}.

(** [evaluate_dataset]: the returned dictionary ([None] is [{}]) and the
    instance after the call. *)
Definition evaluate_dataset (self : CodeBLEUDatasetEvaluator)
  (dataset : list (string * string))
  : option Aggregated * CodeBLEUDatasetEvaluator :=
  match dataset with
  | [] => (None, self)
  | _ :: _ =>
      let '(individual_scores, self') := evaluate_loop self 0 dataset [] in
      match individual_scores with
      | [] => (None, self')
      | s0 :: ss => (Some (aggregate s0 ss), self')
      end
  end.

End Engine.

(** ** An executable instance of the library services

    A backtracking matcher for the regular expressions that occur in the
    source, on 8-bit characters, and a table of parse results.  The
    properties below hold for every [PyLib]; this instance serves to run
    the definitions on concrete inputs. *)

Module Re.

Inductive atom : Type :=
| Lit (c : ascii)
| Dot
| WordChar
| SpaceChar.

Inductive regex : Type :=
| One (a : atom)
| NoneOf (l : list atom)
| Eps
| Cat (r1 r2 : regex)
| Alt (r1 r2 : regex)
| Star (greedy : bool) (r : regex)
| Group (r : regex)
| WordBoundary
| EndOfLine.

Definition is_word (c : ascii) : bool :=
  let n := nat_of_ascii c in
  ((48 <=? n) && (n <=? 57)) || ((65 <=? n) && (n <=? 90))
  || ((97 <=? n) && (n <=? 122)) || (n =? 95).

Definition newline : ascii := ascii_of_nat 10.

Definition atom_match (flag : re_flag) (a : atom) (c : ascii) : bool :=
  match a with
  | Lit c' =>
      match flag with
      | IGNORECASE => Ascii.eqb (lower_ascii c) (lower_ascii c')
      | _ => Ascii.eqb c c'
      end
  | Dot =>
      match flag with
      | DOTALL => true
      | _ => negb (Ascii.eqb c newline)
      end
  | WordChar => is_word c
  | SpaceChar => is_space c
  end.

(** A position in the subject: the character before it, the text after
    it, and the text of group 1 if it has been closed. *)
Record pos : Type := {
  before : option ascii;
  rest : string;
  group1 : option string
}.

Definition consumed (from to : string) : string :=
  substring 0 (String.length from - String.length to) from.

Definition word_before (p : pos) : bool :=
  match before p with
  | Some c => is_word c
  | None => false
  end.

Definition word_after (p : pos) : bool :=
  match rest p with
  | String c _ => is_word c
  | EmptyString => false
  end.

Definition at_end_of_line (flag : re_flag) (p : pos) : bool :=
  match rest p with
  | EmptyString => true
  | String c EmptyString => Ascii.eqb c newline
  | String c _ =>
      match flag with
      | MULTILINE => Ascii.eqb c newline
      | _ => false
      end
  end.

Definition step (flag : re_flag) (ok : ascii -> bool) (p : pos) : list pos :=
  match rest p with
  | String c s' =>
      if ok c then [{| before := Some c; rest := s'; group1 := group1 p |}]
      else []
  | EmptyString => []
  end.

(** The positions at which a match of [r] from [p] can end, in the order
    in which a backtracking matcher tries them. *)
Fixpoint ends (fuel : nat) (flag : re_flag) (r : regex) (p : pos) : list pos :=
  match fuel with
  | 0 => []
  | S fuel' =>
      match r with
      | One a => step flag (atom_match flag a) p
      | NoneOf l =>
          step flag (fun c => negb (existsb (fun a => atom_match flag a c) l)) p
      | Eps => [p]
      | Cat r1 r2 => flat_map (ends fuel' flag r2) (ends fuel' flag r1 p)
      | Alt r1 r2 => ends fuel' flag r1 p ++ ends fuel' flag r2 p
      | Star greedy r1 =>
          let more :=
            flat_map
              (fun p' =>
                 if String.length (rest p') <? String.length (rest p)
                 then ends fuel' flag (Star greedy r1) p' else [])
              (ends fuel' flag r1 p) in
          if greedy then more ++ [p] else p :: more
      | Group r1 =>
          map (fun p' => {| before := before p'; rest := rest p';
                            group1 := Some (consumed (rest p) (rest p')) |})
              (ends fuel' flag r1 p)
      | WordBoundary => if xorb (word_before p) (word_after p) then [p] else []
      | EndOfLine => if at_end_of_line flag p then [p] else []
      end
  end.

Fixpoint size (r : regex) : nat :=
  match r with
  | Cat r1 r2 | Alt r1 r2 => S (size r1 + size r2)
  | Star _ r1 | Group r1 => S (size r1)
  | _ => 1
  end.

(** The leftmost match starting exactly at [p], if any. *)
Definition match_at (flag : re_flag) (r : regex) (p : pos) : option pos :=
  hd_error (ends (size r * (String.length (rest p) + 2)) flag r p).

Definition advance (p : pos) : option (ascii * pos) :=
  match rest p with
  | String c s' => Some (c, {| before := Some c; rest := s'; group1 := None |})
  | EmptyString => None
  end.

(** [re.findall]: group 1 when the pattern has a group, else the match. *)
Fixpoint findall_from (fuel : nat) (flag : re_flag) (r : regex) (p : pos)
  : list string :=
  match fuel with
  | 0 => []
  | S fuel' =>
      match match_at flag r p with
      | Some p' =>
          let found :=
            match group1 p' with
            | Some g => g
            | None => consumed (rest p) (rest p')
            end in
          let next := {| before := before p'; rest := rest p'; group1 := None |} in
          if String.length (rest p') <? String.length (rest p)
          then found :: findall_from fuel' flag r next
          else
            match advance p with
            | Some (_, q) => found :: findall_from fuel' flag r q
            | None => [found]
            end
      | None =>
          match advance p with
          | Some (_, q) => findall_from fuel' flag r q
          | None => []
          end
      end
  end.

(** [re.sub(r, '', s)] *)
Fixpoint sub_from (fuel : nat) (flag : re_flag) (r : regex) (p : pos) : string :=
  match fuel with
  | 0 => rest p
  | S fuel' =>
      match match_at flag r p with
      | Some p' =>
          let next := {| before := before p'; rest := rest p'; group1 := None |} in
          if String.length (rest p') <? String.length (rest p)
          then sub_from fuel' flag r next
          else
            match advance p with
            | Some (c, q) => String c (sub_from fuel' flag r q)
            | None => EmptyString
            end
      | None =>
          match advance p with
          | Some (c, q) => String c (sub_from fuel' flag r q)
          | None => EmptyString
          end
      end
  end.

Definition start (s : string) : pos :=
  {| before := None; rest := s; group1 := None |}.

Definition findall (r : regex) (flag : re_flag) (s : string) : list string :=
  findall_from (S (String.length s)) flag r (start s).

Definition sub (r : regex) (flag : re_flag) (s : string) : string :=
  sub_from (S (String.length s)) flag r (start s).

(** Pattern syntax. *)
Fixpoint str (s : string) : regex :=
  match s with
  | EmptyString => Eps
  | String c EmptyString => One (Lit c)
  | String c s' => Cat (One (Lit c)) (str s')
  end.

Definition plus (r : regex) : regex := Cat r (Star true r).
Definition star (r : regex) : regex := Star true r.
Definition w : regex := One WordChar.
Definition s : regex := One SpaceChar.

Fixpoint cats (rs : list regex) : regex :=
  match rs with
  | [] => Eps
  | [r] => r
  | r :: rs' => Cat r (cats rs')
  end.

(** The patterns of [codebleu_evaluator.py], by their source text. *)
Definition patterns : list (string * regex) :=
  [("#.*$", cats [str "#"; star (One Dot); EndOfLine]);
   ("//.*$", cats [str "//"; star (One Dot); EndOfLine]);
   ("/\*.*?\*/", cats [str "/*"; Star false (One Dot); str "*/"]);
   ("\b\w+\b|[^\w\s]",
    Alt (cats [WordBoundary; plus w; WordBoundary]) (NoneOf [WordChar; SpaceChar]));
   ("function\s+(\w+)", cats [str "function"; plus s; Group (plus w)]);
   ("class\s+(\w+)", cats [str "class"; plus s; Group (plus w)]);
   ("(\w+)\s*:\s*function",
    cats [Group (plus w); star s; str ":"; star s; str "function"]);
   ("const\s+(\w+)\s*=\s*\([^)]*\)\s*=>",
    cats [str "const"; plus s; Group (plus w); star s; str "="; star s;
          str "("; star (NoneOf [Lit ")"%char]); str ")"; star s; str "=>"]);
   ("interface\s+(\w+)", cats [str "interface"; plus s; Group (plus w)]);
   ("public\s+\w+\s+(\w+)\s*\(",
    cats [str "public"; plus s; plus w; plus s; Group (plus w); star s; str "("]);
   ("private\s+\w+\s+(\w+)\s*\(",
    cats [str "private"; plus s; plus w; plus s; Group (plus w); star s; str "("]);
   ("\bif\s*\(", cats [WordBoundary; str "if"; star s; str "("]);
   ("\belse\b", cats [WordBoundary; str "else"; WordBoundary]);
   ("\belif\s*\(", cats [WordBoundary; str "elif"; star s; str "("]);
   ("\bfor\s*\(", cats [WordBoundary; str "for"; star s; str "("]);
   ("\bwhile\s*\(", cats [WordBoundary; str "while"; star s; str "("]);
   ("\btry\b", cats [WordBoundary; str "try"; WordBoundary]);
   ("\bcatch\b", cats [WordBoundary; str "catch"; WordBoundary]);
   ("\bfinally\b", cats [WordBoundary; str "finally"; WordBoundary]);
   ("\bswitch\s*\(", cats [WordBoundary; str "switch"; star s; str "("]);
   ("\bcase\s+", cats [WordBoundary; str "case"; plus s]);
   ("\bbreak\b", cats [WordBoundary; str "break"; WordBoundary]);
   ("\bcontinue\b", cats [WordBoundary; str "continue"; WordBoundary]);
   ("\breturn\b", cats [WordBoundary; str "return"; WordBoundary])].

Fixpoint compile (table : list (string * regex)) (pattern : string) : option regex :=
  match table with
  | [] => None
  | (p, r) :: table' => if String.eqb pattern p then Some r else compile table' pattern
  end.

End Re.

Module PyRef.

Definition sub_empty (pattern : string) (flag : re_flag) (s : string) : string :=
  match Re.compile Re.patterns pattern with
  | Some r => Re.sub r flag s
  | None => s
  end.

Definition findall (pattern : string) (flag : re_flag) (s : string) : list string :=
  match Re.compile Re.patterns pattern with
  | Some r => Re.findall r flag s
  | None => []
  end.

Definition nl : string := String Re.newline EmptyString.
Definition nul : string := String (ascii_of_nat 0) EmptyString.

(** [def f(x):\n    return x + 1] *)
Definition src_def_f : string := "def f(x):" ++ nl ++ "    return x + 1".

Definition tree_def_f : ast :=
  Node "Module"
    [Node "FunctionDef"
       [Node "arguments" [Node "arg" []];
        Node "Return"
          [Node "BinOp"
             [Node "Name" [Node "Load" []]; Node "Add" []; Node "Constant" []]]]].

(** [x = 1] *)
Definition tree_assign : ast :=
  Node "Module" [Node "Assign" [Node "Name" [Node "Store" []]; Node "Constant" []]].

(** What CPython's [ast.parse] does on a few sources: two programs, an
    unclosed parenthesis ([SyntaxError]) and a null byte ([ValueError] up
    to CPython 3.11).  Sources outside the table count as unparsable. *)
Definition parse (code : string) : parse_outcome :=
  if String.eqb code src_def_f then Parsed tree_def_f
  else if String.eqb code "x = 1" then Parsed tree_assign
  else if String.eqb code "" then Parsed (Node "Module" [])
  else if String.eqb code "(" then SyntaxError
  else if String.eqb code nul
       then ParseRaises (ValueError "source code string cannot contain null bytes")
  else SyntaxError.

Definition lib : PyLib :=
  {| re_sub_empty := sub_empty;
     re_findall := findall;
     str_lower := lower;
     ast_parse := parse;
     now_isoformat := "2024-01-01T00:00:00" |}.

End PyRef.

(** ** Loading a dataset from two directories *)

(** The file system as [load_dataset_from_files] reads it.  It is not
    modified during the call. *)
Record FileSystem : Type := {
  (** [os.path.exists(path)] *)
  path_exists : string -> bool;
  (** [os.listdir(path)]: the names, in no particular order, or [OSError] *)
  listdir : string -> result (list string);
  (** [os.path.isfile(path)] *)
  isfile : string -> bool;
  (** [open(path, 'r', encoding='utf-8').read()] *)
  read_text : string -> result string
}.

Fixpoint ends_with_slash (s : string) : bool :=
  match s with
  | EmptyString => false
  | String c EmptyString => Ascii.eqb c "/"%char
  | String _ s' => ends_with_slash s'
  end.

(** [os.path.join(a, b)] on a POSIX system. *)
Definition path_join (a b : string) : string :=
  if String.prefix "/" b then b
  else if String.eqb a "" || ends_with_slash a then a ++ b
  else a ++ "/" ++ b.

(** [sorted(names)]: strings in lexicographic order of their characters. *)
Fixpoint insert_sorted (x : string) (l : list string) : list string :=
  match l with
  | [] => [x]
  | y :: l' => if String.leb x y then x :: l else y :: insert_sorted x l'
  end.

Definition sorted (names : list string) : list string :=
  fold_right insert_sorted [] names.

(** The body of the loop over the zipped file names: the pair appended to
    [dataset], if any. *)
Definition load_pair (fs : FileSystem) (generated_dir reference_dir : string)
  (names : string * string) : list (string * string) :=
  let gen_path := path_join generated_dir (fst names) in
  let ref_path := path_join reference_dir (snd names) in
  if isfile fs gen_path && isfile fs ref_path then
    match read_text fs gen_path with
    | Ok generated_code =>
        match read_text fs ref_path with
        | Ok reference_code => [(generated_code, reference_code)]
        | Raise _ => []
        end
    | Raise _ => []
    end
  else [].

(** [load_dataset_from_files] *)
Definition load_dataset_from_files (fs : FileSystem)
  (generated_dir reference_dir : string) : result (list (string * string)) :=
  if negb (path_exists fs generated_dir) || negb (path_exists fs reference_dir)
  then Ok []
  else
    generated_names <- listdir fs generated_dir ;;
    reference_names <- listdir fs reference_dir ;;
    let generated_files := sorted generated_names in
    let reference_files := sorted reference_names in
    Ok (flat_map (load_pair fs generated_dir reference_dir)
                 (combine generated_files reference_files)).

(** An in-memory file system: directories with their entries, and text
    files with their contents. *)
Module MemFS.

Fixpoint lookup {V : Type} (table : list (string * V)) (path : string) : option V :=
  match table with
  | [] => None
  | (p, v) :: table' => if String.eqb path p then Some v else lookup table' path
  end.

Definition make (dirs : list (string * list string)) (files : list (string * string))
  : FileSystem :=
  {| path_exists := fun path =>
       match lookup dirs path, lookup files path with
       | None, None => false
       | _, _ => true
       end;
     listdir := fun path =>
       match lookup dirs path with
       | Some names => Ok names
       | None =>
           match lookup files path with
           | Some _ => Raise (OtherException "NotADirectoryError")
           | None => Raise (OtherException "FileNotFoundError")
           end
       end;
     isfile := fun path =>
       match lookup files path with
       | Some _ => true
       | None => false
       end;
     read_text := fun path =>
       match lookup files path with
       | Some text => Ok text
       | None =>
           match lookup dirs path with
           | Some _ => Raise (OtherException "IsADirectoryError")
           | None => Raise (OtherException "FileNotFoundError")
           end
       end |}.

Definition sample : FileSystem :=
  make [("gen", ["b.py"; "a.py"; "sub"]);
        ("ref", ["c.py"; "a.py"; "b.py"]);
        ("gen/sub", [])]
       [("gen/a.py", "x = 1"); ("gen/b.py", "y = 2");
        ("ref/a.py", "x = 1"); ("ref/b.py", "y = 3"); ("ref/c.py", "z = 4");
        ("notes.txt", "hello")].

(** The same files, listed in another order. *)
Definition sample_reordered : FileSystem :=
  make [("gen", ["sub"; "a.py"; "b.py"]);
        ("ref", ["b.py"; "c.py"; "a.py"]);
        ("gen/sub", [])]
       [("gen/a.py", "x = 1"); ("gen/b.py", "y = 2");
        ("ref/a.py", "x = 1"); ("ref/b.py", "y = 3"); ("ref/c.py", "z = 4");
        ("notes.txt", "hello")].

End MemFS.

(** ** Notions used to state the properties *)

Definition parses (lib : PyLib) (code : string) : bool :=
  match ast_parse lib code with
  | Parsed _ => true
  | _ => false
  end.

(** [ast.parse] raises something other than [SyntaxError]. *)
Definition raises_on_parse (lib : PyLib) (code : string) : bool :=
  match ast_parse lib code with
  | ParseRaises _ => true
  | _ => false
  end.

(** The node lists of the references that parse, in order. *)
Definition parsed_references (lib : PyLib) (reference_codes : list string)
  : list (list string) :=
  flat_map
    (fun ref_code =>
       match ast_parse lib ref_code with
       | Parsed ref_ast => [_extract_ast_nodes ref_ast]
       | _ => []
       end)
    reference_codes.

(** The greatest of a list of ratios, 0 for the empty list. *)
Definition max_ratio (ratios : list R) : R := fold_right Rmax 0%R ratios.

(** The reference list and the language [evaluate] works with. *)
Definition reference_list (reference_codes : reference_arg) : list string :=
  match reference_codes with
  | OneRef reference => [reference]
  | ManyRefs references => references
  end.

Definition resolved_language (language : option string) (candidate_code : string)
  : string :=
  match language with
  | None => detect_language candidate_code
  | Some l => l
  end.

(** The results of the pairs of a dataset that evaluate without raising. *)
Definition successful_scores (lib : PyLib) (self : CodeBLEUEvaluator)
  (dataset : list (string * string)) : list EvaluationResult :=
  flat_map
    (fun pair =>
       match evaluate lib self (fst pair) (OneRef (snd pair)) None with
       | Ok scores => [scores]
       | Raise _ => []
       end)
    dataset.

(** Population and sample standard deviation, as textbooks define them. *)
Definition sum_list (l : list R) : R := fold_right Rplus 0%R l.





(** Equality of n-grams is decidable. *)
Definition ngram_dec (a b : ngram) : {a = b} + {a <> b} :=
  list_eq_dec string_dec a b.

(** The running maximum of the three matchers: the greatest value of [f]
    over the references, from [max_score = 0.0]. *)
Definition best {A : Type} (f : A -> R) (l : list A) : R :=
  fold_left (fun m x => py_max m (f x)) l 0%R.

(** The order in which [sorted] arranges names. *)
Definition str_le (a b : string) : Prop := String.leb a b = true.

(** * Properties *)

(** ** Booleans over the reals *)

Lemma float_lt_true (a b : float) : float_lt a b = true <-> (a < b)%R.
Proof.
  unfold float_lt; destruct (Rlt_dec a b); split; intros; try easy.
Qed.

Lemma float_lt_false (a b : float) : float_lt a b = false <-> (b <= a)%R.
Proof.
  unfold float_lt; destruct (Rlt_dec a b); split; intros; try easy; lra.
Qed.

Lemma float_le_true (a b : float) : float_le a b = true <-> (a <= b)%R.
Proof.
  unfold float_le; destruct (Rle_dec a b); split; intros; try easy.
Qed.

Lemma float_le_false (a b : float) : float_le a b = false <-> (b < a)%R.
Proof.
  unfold float_le; destruct (Rle_dec a b); split; intros; try easy; lra.
Qed.

Lemma float_eq_true (a b : float) : float_eq a b = true <-> a = b.
Proof.
  unfold float_eq; destruct (Req_dec_T a b); split; intros; try easy.
Qed.

Lemma float_eq_false (a b : float) : float_eq a b = false <-> a <> b.
Proof.
  unfold float_eq; destruct (Req_dec_T a b); split; intros; try easy.
Qed.

Lemma py_max_Rmax (a b : float) : py_max a b = Rmax a b.
Proof.
  unfold py_max, Rmax.
  destruct (float_lt a b) eqn:E; destruct (Rle_dec a b) as [H | H]; try reflexivity.
  - apply float_lt_true in E; lra.
  - apply float_lt_false in E; lra.
Qed.

Lemma py_min_Rmin (a b : float) : py_min a b = Rmin a b.
Proof.
  unfold py_min, Rmin.
  destruct (float_lt b a) eqn:E; destruct (Rle_dec a b) as [H | H]; try reflexivity.
  - apply float_lt_true in E; lra.
  - apply float_lt_false in E; lra.
Qed.

(** ** n-grams and counters *)

Lemma ngram_eqb_eq (a b : ngram) : ngram_eqb a b = true <-> a = b.
Proof.
  revert b; induction a as [| x a IH]; intros [| y b]; simpl; split; intro H;
    try easy.
  - apply andb_true_iff in H as [Hx Hr].
    apply String.eqb_eq in Hx; apply IH in Hr; congruence.
  - injection H as -> ->.
    apply andb_true_iff; split; [apply String.eqb_refl | now apply IH].
Qed.

Lemma ngram_eqb_refl (a : ngram) : ngram_eqb a a = true.
Proof. now apply ngram_eqb_eq. Qed.

Lemma ngram_eqb_neq (a b : ngram) : ngram_eqb a b = false <-> a <> b.
Proof.
  split; intro H.
  - intro E; apply ngram_eqb_eq in E; congruence.
  - destruct (ngram_eqb a b) eqn:E; [apply ngram_eqb_eq in E; contradiction | reflexivity].
Qed.

Module CounterFacts.

Import Counter.

Lemma incr_keys (k x : ngram) (c : Counter.t) :
  In x (map fst (incr k c)) <-> x = k \/ In x (map fst c).
Proof.
  induction c as [| [k' v] c IH]; simpl.
  - intuition.
  - destruct (ngram_eqb k k') eqn:E; simpl.
    + apply ngram_eqb_eq in E; subst; intuition.
    + rewrite IH; intuition.
Qed.

Lemma incr_wf (k : ngram) (c : Counter.t) : wf c -> wf (incr k c).
Proof.
  unfold wf; induction c as [| [k' v] c IH]; simpl; intro H.
  - constructor; [easy | constructor].
  - inversion H as [| ? ? Hnin Hnd]; subst.
    destruct (ngram_eqb k k') eqn:E; simpl.
    + now constructor.
    + constructor; [| now apply IH].
      rewrite incr_keys; intros [-> | Hin]; [| contradiction].
      now rewrite ngram_eqb_refl in E.
Qed.

Lemma fold_incr_wf (items : list ngram) (c : Counter.t) :
  wf c -> wf (fold_left (fun c k => incr k c) items c).
Proof.
  revert c; induction items as [| k items IH]; simpl; intros c H; [easy |].
  now apply IH, incr_wf.
Qed.

Lemma of_list_wf (items : list ngram) : wf (of_list items).
Proof. apply fold_incr_wf; constructor. Qed.

Lemma total_acc (c : Counter.t) (a : nat) :
  fold_left (fun acc kv => acc + snd kv) c a = a + total c.
Proof.
  unfold total; revert a; induction c as [| kv c IH]; simpl; intro a; [lia |].
  rewrite IH, (IH (snd kv)); lia.
Qed.

Lemma total_cons (kv : ngram * nat) (c : Counter.t) :
  total (kv :: c) = snd kv + total c.
Proof. unfold total at 1; simpl; now rewrite total_acc. Qed.

Lemma total_incr (k : ngram) (c : Counter.t) : total (incr k c) = S (total c).
Proof.
  induction c as [| [k' v] c IH]; simpl; [reflexivity |].
  destruct (ngram_eqb k k'); rewrite !total_cons; simpl; [| rewrite IH]; lia.
Qed.

Lemma total_fold_incr (items : list ngram) (c : Counter.t) :
  total (fold_left (fun c k => incr k c) items c) = List.length items + total c.
Proof.
  revert c; induction items as [| k items IH]; simpl; intro c; [reflexivity |].
  rewrite IH, total_incr; lia.
Qed.

(** The counts of a [Counter] add up to the number of items counted. *)
Lemma total_of_list (items : list ngram) : total (of_list items) = List.length items.
Proof. unfold of_list; rewrite total_fold_incr; unfold total; simpl; lia. Qed.

Lemma incr_nonempty (k : ngram) (c : Counter.t) : incr k c <> [].
Proof. destruct c as [| [k' v] c]; simpl; [easy | destruct (ngram_eqb k k'); easy]. Qed.

Lemma of_list_nonempty (items : list ngram) : items <> [] -> of_list items <> [].
Proof.
  intros Hne E.
  assert (Ht : total (of_list items) = List.length items) by apply total_of_list.
  rewrite E in Ht; destruct items; [contradiction | discriminate].
Qed.

Lemma get_absent (k : ngram) (c : Counter.t) : ~ In k (map fst c) -> get k c = 0.
Proof.
  induction c as [| [k' v] c IH]; simpl; intro H; [reflexivity |].
  destruct (ngram_eqb k k') eqn:E.
  - apply ngram_eqb_eq in E; subst; exfalso; auto.
  - apply IH; auto.
Qed.

Lemma get_present (k : ngram) (v : nat) (c : Counter.t) :
  wf c -> In (k, v) c -> get k c = v.
Proof.
  unfold wf; induction c as [| [k' v'] c IH]; simpl; intros Hwf Hin; [easy |].
  inversion Hwf as [| ? ? Hnin Hnd]; subst.
  destruct Hin as [E | Hin].
  - injection E as -> ->; now rewrite ngram_eqb_refl.
  - destruct (ngram_eqb k k') eqn:E.
    + apply ngram_eqb_eq in E; subst.
      exfalso; apply Hnin; change k' with (fst (k', v)); now apply in_map.
    + now apply IH.
Qed.

Lemma get_set_max (k k' : ngram) (v : nat) (c : Counter.t) :
  get k (set_max k' v c)
  = if ngram_eqb k k' then Nat.max (get k c) v else get k c.
Proof.
  induction c as [| [k1 v1] c IH]; simpl.
  - destruct (ngram_eqb k k'); reflexivity.
  - destruct (ngram_eqb k' k1) eqn:E1; simpl.
    + apply ngram_eqb_eq in E1; subst k1.
      destruct (ngram_eqb k k'); reflexivity.
    + destruct (ngram_eqb k k1) eqn:E2.
      * apply ngram_eqb_eq in E2; subst k1.
        destruct (ngram_eqb k k') eqn:E3; [| reflexivity].
        apply ngram_eqb_eq in E3; subst; now rewrite ngram_eqb_refl in E1.
      * apply IH.
Qed.

(** Folding one counter into [max_counts] takes the key-wise maximum. *)
Lemma get_fold_set_max (k : ngram) (c m : Counter.t) :
  wf c ->
  get k (fold_left (fun mc kv => set_max (fst kv) (snd kv) mc) c m)
  = Nat.max (get k m) (get k c).
Proof.
  unfold wf; revert m; induction c as [| [k1 v1] c IH]; simpl; intros m Hwf.
  - lia.
  - inversion Hwf as [| ? ? Hnin Hnd]; subst.
    rewrite IH by assumption. rewrite get_set_max.
    destruct (ngram_eqb k k1) eqn:E.
    + apply ngram_eqb_eq in E; subst k1.
      rewrite (get_absent k c Hnin); lia.
    + reflexivity.
Qed.

End CounterFacts.

(** ** n-gram precision of a sequence against itself *)

Lemma fold_left_ext_in {A B : Type} (f g : A -> B -> A) (l : list B) (a : A) :
  (forall a b, In b l -> f a b = g a b) -> fold_left f l a = fold_left g l a.
Proof.
  revert a; induction l as [| b l IH]; simpl; intros a H; [reflexivity |].
  rewrite H by now left. apply IH; intros; apply H; now right.
Qed.

Lemma ngrams_of_length (tokens : list token) (n : nat) :
  List.length (ngrams_of tokens n) = List.length tokens + 1 - n.
Proof. unfold ngrams_of; now rewrite length_map, length_seq. Qed.

(** The [max_counts] of a single reference are that reference's counts. *)
Lemma max_counts_single (k : ngram) (c : Counter.t) :
  Counter.wf c -> Counter.get k (max_counts_of [c]) = Counter.get k c.
Proof.
  intro Hwf; unfold max_counts_of; simpl.
  now rewrite CounterFacts.get_fold_set_max.
Qed.

(** Against itself every candidate n-gram is counted in full. *)
Lemma self_correct (c : Counter.t) :
  Counter.wf c ->
  fold_left
    (fun correct kv =>
       correct + Nat.min (snd kv) (Counter.get (fst kv) (max_counts_of [c])))
    c 0
  = Counter.total c.
Proof.
  intro Hwf; unfold Counter.total.
  apply fold_left_ext_in; intros a [k v] Hin; simpl.
  rewrite max_counts_single, (CounterFacts.get_present k v c) by assumption.
  now rewrite Nat.min_id.
Qed.

Lemma ngram_precision_self (x : list token) (n : nat) :
  1 <= n <= List.length x -> ngram_precision x [x] n = 1%R.
Proof.
  intros [Hn1 Hn]; unfold ngram_precision; simpl map.
  assert (Hlen : List.length (ngrams_of x n) <> 0)
    by (rewrite ngrams_of_length; lia).
  assert (Htot : Counter.total (_get_ngrams x n) = List.length (ngrams_of x n))
    by apply CounterFacts.total_of_list.
  destruct (_get_ngrams x n) as [| kv c] eqn:E.
  - exfalso; unfold Counter.total in Htot; simpl in Htot; congruence.
  - rewrite <- E in *.
    rewrite self_correct by apply CounterFacts.of_list_wf.
    rewrite Htot.
    destruct (0 <? List.length (ngrams_of x n)) eqn:Hpos;
      [| apply Nat.ltb_ge in Hpos; lia].
    field. apply not_0_INR; assumption.
Qed.

Lemma py_sum_acc (l : list float) (a : float) :
  fold_left Rplus l a = (a + py_sum l)%R.
Proof.
  unfold py_sum; revert a; induction l as [| x l IH]; simpl; intro a; [lra |].
  rewrite IH, (IH (0 + x)%R); lra.
Qed.

Lemma py_sum_cons (x : float) (l : list float) : py_sum (x :: l) = (x + py_sum l)%R.
Proof. unfold py_sum at 1; simpl; rewrite py_sum_acc; lra. Qed.

Lemma py_sum_zero (l : list float) : Forall (fun x => x = 0%R) l -> py_sum l = 0%R.
Proof.
  induction 1 as [| x l Hx _ IH]; [reflexivity |].
  rewrite py_sum_cons, Hx, IH; lra.
Qed.

Lemma closest_ref_single (n : nat) (ref0 : list token) : closest_ref n ref0 [] = ref0.
Proof. reflexivity. Qed.

(** No penalty for a candidate as long as its closest reference. *)
Lemma brevity_penalty_self (n : nat) : 0 < n -> brevity_penalty_of n n = 1%R.
Proof.
  intro Hn. unfold brevity_penalty_of. rewrite Nat.ltb_irrefl.
  replace (0 <? n) with true by (symmetry; now apply Nat.ltb_lt).
  replace (1 - INR n / INR n)%R with 0%R; [apply exp_0 |].
  field. apply not_0_INR; lia.
Qed.

(** A sequence long enough to have n-grams of every order scores 1
    against itself. *)
Lemma bleu_self (x : list token) (max_n : nat) :
  1 <= max_n <= List.length x -> calculate_bleu_score x [x] max_n = Ok 1%R.
Proof.
  intros [Hm1 Hm].
  assert (Hp : map (ngram_precision x [x]) (seq 1 max_n) = repeat 1%R max_n).
  { assert (G : forall k s, s + k <= S (List.length x) -> 1 <= s ->
                 map (ngram_precision x [x]) (seq s k) = repeat 1%R k).
    { induction k as [| k IH]; intros s Hs H1; simpl; [reflexivity |].
      rewrite ngram_precision_self by lia. f_equal. apply IH; lia. }
    apply G; lia. }
  unfold calculate_bleu_score.
  destruct x as [| t x']; [simpl in Hm; lia |].
  set (x := t :: x') in *.
  rewrite Hp, closest_ref_single, brevity_penalty_self by (subst x; simpl; lia).
  assert (Hex : existsb (fun p => float_eq p 0%R) (repeat 1%R max_n) = false).
  { clear; induction max_n as [| k IH]; simpl; [reflexivity |].
    rewrite IH, orb_false_r. apply float_eq_false; lra. }
  rewrite Hex, repeat_length.
  destruct max_n as [| k]; [lia |].
  rewrite py_sum_zero.
  - f_equal. unfold Rdiv; rewrite Rmult_0_l, exp_0; lra.
  - apply Forall_forall; intros y Hy.
    apply in_map_iff in Hy as [p [<- Hin]].
    apply repeat_spec in Hin; subst p. apply ln_1.
Qed.

(** ** Claims on [calculate_bleu_score] *)

(** C2 (as amended).  A token sequence with at least four tokens, scored
    against itself as the only reference with [max_n = 4], gets exactly
    1.0: every n-gram precision is 1 and the brevity penalty is 1. *)
Theorem C2_bleu_self_match (x : list token) :
  4 <= List.length x ->
  calculate_bleu_score x [x] 4 = Ok 1%R
  /\ (forall n, 1 <= n <= 4 -> ngram_precision x [x] n = 1%R)
  /\ brevity_penalty_of (List.length x) (List.length (closest_ref (List.length x) x []))
     = 1%R.
Proof.
  intro H; split; [| split].
  - apply bleu_self; lia.
  - intros n Hn; apply ngram_precision_self; lia.
  - rewrite closest_ref_single. apply brevity_penalty_self; lia.
Qed.

Lemma C2_bleu_self_match_witness :
  4 <= List.length ["def"; "f"; "("; "x"; ")"; ":"]
  /\ calculate_bleu_score ["def"; "f"; "("; "x"; ")"; ":"]
                          [["def"; "f"; "("; "x"; ")"; ":"]] 4 = Ok 1%R.
Proof.
  split; [simpl; lia |].
  apply (C2_bleu_self_match ["def"; "f"; "("; "x"; ")"; ":"]); simpl; lia.
Defined.

(** C2 (as stated) fails below four tokens: a three-token sequence has no
    4-gram, its precision of order 4 is 0 and the score is 0.0, not 1.0. *)
Lemma C2_short_sequence_counterexample :
  calculate_bleu_score ["a"; "b"; "c"] [["a"; "b"; "c"]] 4 = Ok 0%R
  /\ ~ (forall x : list token, calculate_bleu_score x [x] 4 = Ok 1%R).
Proof.
  assert (E : calculate_bleu_score ["a"; "b"; "c"] [["a"; "b"; "c"]] 4 = Ok 0%R).
  { unfold calculate_bleu_score.
    replace (existsb _ _) with true; [reflexivity |].
    symmetry; apply existsb_exists.
    exists (ngram_precision ["a"; "b"; "c"] [["a"; "b"; "c"]] 4); split.
    - simpl; auto.
    - apply float_eq_true; reflexivity. }
  split; [exact E |].
  intro H.
  assert (Habs : Ok 0%R = Ok 1%R) by (rewrite <- E; apply H).
  injection Habs; lra.
Qed.

(** C5.  With an empty candidate or an empty reference list
    [calculate_bleu_score] returns 0.0 without raising, whatever the
    other argument and [max_n] are. *)
Theorem C5_bleu_empty_inputs :
  (forall references max_n, calculate_bleu_score [] references max_n = Ok 0%R)
  /\ (forall candidate max_n, calculate_bleu_score candidate [] max_n = Ok 0%R).
Proof.
  split; [reflexivity |].
  intros [| t candidate] max_n; reflexivity.
Qed.

(** The only way for the scorer to raise: no order at all, on non-empty
    arguments. *)
Example bleu_max_n_zero_raises :
  calculate_bleu_score ["a"] [["a"]] 0 = Raise ZeroDivisionError.
Proof. reflexivity. Qed.

(** C6.  When the keyword set of the language is empty, and so for every
    language outside the keyword table, the weighted score is the plain
    BLEU score of the same sequences. *)
Theorem C6_weighted_bleu_without_keywords
  (candidate : list token) (references : list (list token)) (language : string) :
  dict_get keywords language = []
  \/ ~ In language ["python"; "javascript"; "java"] ->
  calculate_weighted_bleu_score candidate references language
  = calculate_bleu_score candidate references 4.
Proof.
  intro H.
  assert (Hk : dict_get keywords language = []).
  { destruct H as [H | H]; [exact H |].
    unfold keywords; simpl.
    destruct (String.eqb language "python") eqn:E1;
      [apply String.eqb_eq in E1; subst; exfalso; apply H; simpl; auto |].
    destruct (String.eqb language "javascript") eqn:E2;
      [apply String.eqb_eq in E2; subst; exfalso; apply H; simpl; auto |].
    destruct (String.eqb language "java") eqn:E3;
      [apply String.eqb_eq in E3; subst; exfalso; apply H; simpl; auto |].
    reflexivity. }
  assert (Hw : forall tokens, weight_tokens [] tokens = tokens).
  { induction tokens as [| t tokens IH]; [reflexivity |].
    unfold weight_tokens in *; simpl in *; now rewrite IH. }
  unfold calculate_weighted_bleu_score; rewrite Hk, Hw.
  f_equal. induction references as [| r references IH]; [reflexivity |].
  simpl; now rewrite Hw, IH.
Qed.

Lemma C6_weighted_bleu_without_keywords_witness :
  calculate_weighted_bleu_score ["if"; "x"; "end"] [["if"; "x"; "end"; "if"]] "ruby"
  = calculate_bleu_score ["if"; "x"; "end"] [["if"; "x"; "end"; "if"]] 4.
Proof.
  apply (C6_weighted_bleu_without_keywords
           ["if"; "x"; "end"] [["if"; "x"; "end"; "if"]] "ruby").
  left; reflexivity.
Defined.

(** ** The set ratio *)

Lemma to_set_nonempty (x : string) (l : list string) : to_set (x :: l) <> [].
Proof.
  intro E. assert (H : In x (to_set (x :: l))) by (apply nodup_In; now left).
  rewrite E in H; contradiction.
Qed.

Lemma set_inter_incl (x y : list string) :
  incl x y -> set_inter string_dec x y = x.
Proof.
  induction x as [| a x IH]; simpl; intro H; [reflexivity |].
  assert (Ha : set_mem string_dec a y = true)
    by (apply set_mem_correct2, H; now left).
  rewrite Ha, IH; [reflexivity |].
  intros b Hb; apply H; now right.
Qed.

Lemma set_add_present (a : string) (x : list string) :
  In a x -> set_add string_dec a x = x.
Proof.
  induction x as [| b x IH]; simpl; intro H; [contradiction |].
  destruct (string_dec a b) as [E | N]; [reflexivity |].
  destruct H as [H | H]; [congruence |]. now rewrite IH.
Qed.

Lemma set_union_incl (x y : list string) :
  incl y x -> set_union string_dec x y = x.
Proof.
  induction y as [| a y IH]; simpl; intro H; [reflexivity |].
  rewrite IH by (intros b Hb; apply H; now right).
  apply set_add_present, H; now left.
Qed.

Lemma similarity_self (items : list string) : similarity items items = 1%R.
Proof.
  destruct items as [| x l]; [reflexivity |].
  unfold similarity.
  rewrite set_inter_incl, set_union_incl by apply incl_refl.
  assert (Hpos : List.length (to_set (x :: l)) <> 0).
  { intro E; apply length_zero_iff_nil in E; now apply to_set_nonempty in E. }
  destruct (0 <? List.length (to_set (x :: l))) eqn:E;
    [| apply Nat.ltb_ge in E; lia].
  field; now apply not_0_INR.
Qed.

Lemma similarity_range (a b : list string) : (0 <= similarity a b <= 1)%R.
Proof.
  destruct a as [| x a], b as [| y b]; unfold similarity; try lra.
  set (sa := to_set (x :: a)); set (sb := to_set (y :: b)).
  assert (Hle : List.length (set_inter string_dec sa sb)
                <= List.length (set_union string_dec sa sb)).
  { apply NoDup_incl_length.
    - apply set_inter_nodup; apply NoDup_nodup.
    - intros c Hc. apply set_union_intro1.
      now apply set_inter_elim1 in Hc. }
  destruct (0 <? List.length (set_union string_dec sa sb)) eqn:E; [| lra].
  apply Nat.ltb_lt in E.
  assert (Ht : (0 < INR (List.length (set_union string_dec sa sb)))%R)
    by now apply lt_0_INR.
  apply le_INR in Hle.
  assert (Hc : (0 <= INR (List.length (set_inter string_dec sa sb)))%R)
    by apply pos_INR.
  split.
  - apply Rmult_le_pos; [assumption | left; now apply Rinv_0_lt_compat].
  - apply Rmult_le_reg_r with (r := INR (List.length (set_union string_dec sa sb)));
      [assumption |].
    unfold Rdiv; rewrite Rmult_assoc, Rinv_l by lra. lra.
Qed.

(** A running maximum that reaches 1 keeps it, the ratios being at most 1. *)
Lemma fold_py_max_one {A : Type} (f : A -> float) (l : list A) (a : float) :
  (forall x, In x l -> (f x <= 1)%R) ->
  (a <= 1)%R ->
  a = 1%R \/ (exists x, In x l /\ f x = 1%R) ->
  fold_left (fun m x => py_max m (f x)) l a = 1%R.
Proof.
  revert a; induction l as [| y l IH]; simpl; intros a Hle Ha Hone.
  - destruct Hone as [-> | [x [[] _]]]; reflexivity.
  - apply IH.
    + intros x Hx; apply Hle; now right.
    + rewrite py_max_Rmax; apply Rmax_lub; [assumption | apply Hle; now left].
    + destruct Hone as [-> | [x [[-> | Hin] Hx]]].
      * left; rewrite py_max_Rmax; apply Rmax_left, Hle; now left.
      * left; rewrite py_max_Rmax, Hx; now apply Rmax_right.
      * right; now exists x.
Qed.

(** ** The structural and control-flow matchers *)

Lemma string_eqb_false_of_notin (language x : string) (l : list string) :
  ~ In language l -> In x l -> String.eqb language x = false.
Proof.
  intros Hn Hx. apply String.eqb_neq; intro E; subst; contradiction.
Qed.

Lemma control_flow_identical (lib : PyLib) (candidate_code : string)
  (reference_codes : list string) (language : string) :
  (exists r, In r reference_codes
             /\ similarity (_extract_control_flow lib candidate_code language)
                           (_extract_control_flow lib r language) = 1%R) ->
  calculate_control_flow_score lib candidate_code reference_codes language = 1%R.
Proof.
  intros [r [Hin Hr]]. unfold calculate_control_flow_score.
  apply (fold_py_max_one
           (fun ref_code =>
              similarity (_extract_control_flow lib candidate_code language)
                         (_extract_control_flow lib ref_code language))).
  - intros; apply similarity_range.
  - lra.
  - right; now exists r.
Qed.

Lemma structural_identical (lib : PyLib) (candidate : string)
  (references : list string) (language : string) :
  (exists r, In r references
             /\ similarity (_extract_code_structures lib candidate language)
                           (_extract_code_structures lib r language) = 1%R) ->
  _calculate_structural_similarity lib candidate references language = 1%R.
Proof.
  intros [r [Hin Hr]]. unfold _calculate_structural_similarity.
  apply (fold_py_max_one
           (fun ref =>
              similarity (_extract_code_structures lib candidate language)
                         (_extract_code_structures lib ref language))).
  - intros; apply similarity_range.
  - lra.
  - right; now exists r.
Qed.

(** The reference loop in parser mode, when no reference makes the parser
    raise anything but [SyntaxError]: a running maximum over the
    references that parse. *)
Lemma python_ast_loop_spec (lib : PyLib) (candidate_nodes : list string)
  (reference_codes : list string) (max_score : float) :
  (forall r, In r reference_codes -> raises_on_parse lib r = false) ->
  python_ast_loop lib candidate_nodes reference_codes max_score
  = Ok (fold_left (fun m ref_nodes => py_max m (similarity candidate_nodes ref_nodes))
                  (parsed_references lib reference_codes) max_score).
Proof.
  revert max_score; induction reference_codes as [| r rest IH];
    intros max_score Hno; [reflexivity |].
  assert (Hr : raises_on_parse lib r = false) by (apply Hno; now left).
  assert (Hrest : forall r', In r' rest -> raises_on_parse lib r' = false)
    by (intros; apply Hno; now right).
  unfold raises_on_parse in Hr. unfold parsed_references; simpl.
  destruct (ast_parse lib r) as [tree | | e]; [| | discriminate].
  - simpl. now rewrite IH.
  - simpl. now rewrite IH.
Qed.

(** A reference with a syntax error leaves the loop's result unchanged. *)
Lemma python_ast_loop_skip (lib : PyLib) (candidate_nodes : list string)
  (before after : list string) (bad : string) (max_score : float) :
  ast_parse lib bad = SyntaxError ->
  python_ast_loop lib candidate_nodes (before ++ bad :: after) max_score
  = python_ast_loop lib candidate_nodes (before ++ after) max_score.
Proof.
  intro Hbad; revert max_score.
  induction before as [| r before IH]; intro max_score; simpl.
  - now rewrite Hbad.
  - destruct (ast_parse lib r); [apply IH | apply IH | reflexivity].
Qed.

(** The loop raises exactly what the parser raises on the first reference
    on which it raises something other than [SyntaxError]. *)
Lemma python_ast_loop_raises (lib : PyLib) (candidate_nodes : list string)
  (reference_codes : list string) (e : exn) :
  forall max_score,
    python_ast_loop lib candidate_nodes reference_codes max_score = Raise e
    <-> exists before bad after,
        reference_codes = before ++ bad :: after
        /\ ast_parse lib bad = ParseRaises e
        /\ forall r, In r before -> raises_on_parse lib r = false.
Proof.
  induction reference_codes as [| r rest IH]; intro max_score; simpl.
  - split; [discriminate |].
    intros [before [bad [after [H _]]]]. destruct before; discriminate.
  - assert (Hstep : forall m,
               raises_on_parse lib r = false ->
               (python_ast_loop lib candidate_nodes rest m = Raise e
                <-> exists before bad after,
                    r :: rest = before ++ bad :: after
                    /\ ast_parse lib bad = ParseRaises e
                    /\ forall r', In r' before -> raises_on_parse lib r' = false)).
    { intros m Hr. rewrite IH. split.
      - intros [before [bad [after [Heq [Hbad Hbefore]]]]].
        exists (r :: before), bad, after. split; [simpl; now rewrite Heq |].
        split; [assumption |]. intros r' [<- | Hin]; auto.
      - intros [before [bad [after [Heq [Hbad Hbefore]]]]].
        destruct before as [| b before].
        + simpl in Heq. injection Heq as <- _.
          unfold raises_on_parse in Hr. rewrite Hbad in Hr. discriminate.
        + simpl in Heq. injection Heq as <- Hrest.
          exists before, bad, after. split; [assumption |].
          split; [assumption |]. intros r' Hin. apply Hbefore. now right. }
    destruct (ast_parse lib r) as [tree | | e'] eqn:Hp.
    + apply Hstep. unfold raises_on_parse. now rewrite Hp.
    + apply Hstep. unfold raises_on_parse. now rewrite Hp.
    + split.
      * intro H. injection H as ->.
        exists [], r, rest. split; [reflexivity |]. split; [assumption |].
        intros r' [].
      * intros [before [bad [after [Heq [Hbad Hbefore]]]]].
        destruct before as [| b before].
        -- simpl in Heq. injection Heq as <- _. congruence.
        -- simpl in Heq. injection Heq as <- _.
           specialize (Hbefore r (or_introl eq_refl)).
           unfold raises_on_parse in Hbefore. rewrite Hp in Hbefore. discriminate.
Qed.

Lemma fold_py_max_max_ratio (l : list R) (a : R) :
  (0 <= a)%R ->
  fold_left (fun m x => py_max m x) l a = Rmax a (max_ratio l).
Proof.
  revert a; induction l as [| y l IH]; intros a Ha; simpl.
  - symmetry; now apply Rmax_left.
  - rewrite IH, py_max_Rmax.
    + now rewrite Rmax_assoc.
    + rewrite py_max_Rmax. apply Rle_trans with a; [assumption | apply Rmax_l].
Qed.

Lemma max_ratio_upper (l : list R) (q : R) : In q l -> (q <= max_ratio l)%R.
Proof.
  induction l as [| y l IH]; simpl; [intros [] | intros [-> | Hin]].
  - apply Rmax_l.
  - apply Rle_trans with (max_ratio l); [now apply IH | apply Rmax_r].
Qed.

Lemma max_ratio_nonneg (l : list R) : (0 <= max_ratio l)%R.
Proof.
  induction l as [| y l IH]; simpl; [lra |].
  apply Rle_trans with (max_ratio l); [assumption | apply Rmax_r].
Qed.

Lemma max_ratio_attained (l : list R) :
  (forall q, In q l -> (0 <= q)%R) -> l <> [] -> In (max_ratio l) l.
Proof.
  induction l as [| y l IH]; intros Hpos Hne; [contradiction |].
  simpl. destruct l as [| z l'].
  - left. simpl. symmetry; apply Rmax_left, Hpos; now left.
  - destruct (Rle_dec y (max_ratio (z :: l'))) as [Hle | Hgt].
    + right. rewrite Rmax_right by assumption.
      apply IH; [intros; apply Hpos; now right | discriminate].
    + left. symmetry; apply Rmax_left; lra.
Qed.

Lemma fold_left_map {A B C : Type} (f : A -> C -> A) (g : B -> C) (l : list B) (a : A) :
  fold_left (fun m x => f m (g x)) l a = fold_left f (map g l) a.
Proof. revert a; induction l as [| x l IH]; simpl; intro a; [reflexivity | apply IH]. Qed.

(** A walk always meets the root, so the node list of a tree is not empty. *)
Lemma _extract_ast_nodes_nonempty (tree : ast) : _extract_ast_nodes tree <> [].
Proof.
  destruct tree as [name children]. unfold _extract_ast_nodes; simpl. discriminate.
Qed.

(** In parser mode a candidate that parses scores 1 as soon as it is one
    of the references and no reference makes the parser raise. *)
Lemma python_ast_identical (lib : PyLib) (candidate_code : string)
  (reference_codes : list string) :
  parses lib candidate_code = true ->
  In candidate_code reference_codes ->
  (forall r, In r reference_codes -> raises_on_parse lib r = false) ->
  _calculate_python_ast_score lib candidate_code reference_codes = Ok 1%R.
Proof.
  unfold parses, _calculate_python_ast_score; intros Hp Hin Hno.
  destruct (ast_parse lib candidate_code) as [tree | | e] eqn:Hc;
    try discriminate.
  rewrite python_ast_loop_spec by assumption. f_equal.
  apply fold_py_max_one.
  - intros; apply similarity_range.
  - lra.
  - right. exists (_extract_ast_nodes tree); split; [| apply similarity_self].
    unfold parsed_references. apply in_flat_map.
    exists candidate_code; split; [assumption |].
    rewrite Hc; now left.
Qed.

(** C4 (as amended).  With the candidate among the references: the
    control-flow score is 1.0; the structural score is 1.0 in pattern mode,
    and in parser mode when the candidate parses and no reference makes
    the parser raise.  A reference for which both extracted signatures are
    empty also gives 1.0. *)
Theorem C4_identical_scores_one (lib : PyLib) (candidate_code : string)
  (reference_codes : list string) (language : string) :
  (In candidate_code reference_codes ->
   (language = "python" ->
    parses lib candidate_code = true
    /\ forall r, In r reference_codes -> raises_on_parse lib r = false) ->
   calculate_ast_matching_score lib candidate_code reference_codes language = Ok 1%R)
  /\ (In candidate_code reference_codes ->
      calculate_control_flow_score lib candidate_code reference_codes language = 1%R)
  /\ ((exists r, In r reference_codes
                 /\ _extract_control_flow lib candidate_code language = []
                 /\ _extract_control_flow lib r language = []) ->
      calculate_control_flow_score lib candidate_code reference_codes language = 1%R)
  /\ (language <> "python" ->
      (exists r, In r reference_codes
                 /\ _extract_code_structures lib candidate_code language = []
                 /\ _extract_code_structures lib r language = []) ->
      calculate_ast_matching_score lib candidate_code reference_codes language = Ok 1%R)
  /\ similarity [] [] = 1%R.
Proof.
  repeat split.
  - intros Hin Hpy. unfold calculate_ast_matching_score.
    destruct (String.eqb language "python") eqn:E.
    + apply String.eqb_eq in E. destruct (Hpy E) as [Hp Hno].
      now apply python_ast_identical.
    + f_equal. apply structural_identical.
      exists candidate_code; split; [assumption | apply similarity_self].
  - intro Hin. apply control_flow_identical.
    exists candidate_code; split; [assumption | apply similarity_self].
  - intros [r [Hr [Hc Hrf]]]. apply control_flow_identical.
    exists r; split; [assumption |]. now rewrite Hc, Hrf.
  - intros Hl [r [Hr [Hc Hrf]]]. unfold calculate_ast_matching_score.
    apply String.eqb_neq in Hl; rewrite Hl. f_equal.
    apply structural_identical.
    exists r; split; [assumption |]. now rewrite Hc, Hrf.
Qed.

Lemma C4_identical_scores_one_witness :
  calculate_ast_matching_score PyRef.lib "x = 1" ["("; "x = 1"] "python" = Ok 1%R
  /\ calculate_control_flow_score PyRef.lib "x = 1" ["("; "x = 1"] "python" = 1%R.
Proof.
  pose proof (C4_identical_scores_one PyRef.lib "x = 1" ["("; "x = 1"] "python")
    as [Hast [Hcf _]].
  split.
  - apply Hast; [simpl; auto |].
    intros _; split; [reflexivity |].
    intros r [<- | [<- | []]]; reflexivity.
  - apply Hcf; simpl; auto.
Defined.

(** C4 (as stated) fails in parser mode for a candidate that does not
    parse: against itself it scores 0.0.  And a reference on which the
    parser raises something other than [SyntaxError] leaves no score, even
    next to a reference identical to the candidate. *)
Lemma C4_unparsable_candidate_counterexample :
  calculate_ast_matching_score PyRef.lib "(" ["("] "python" = Ok 0%R
  /\ calculate_ast_matching_score PyRef.lib "x = 1" ["x = 1"; PyRef.nul] "python"
     = Raise (ValueError "source code string cannot contain null bytes")
  /\ ~ (forall lib candidate_code,
          calculate_ast_matching_score lib candidate_code [candidate_code] "python"
          = Ok 1%R).
Proof.
  split; [reflexivity |]. split; [reflexivity |].
  intro H. specialize (H PyRef.lib "(").
  change (Ok 0%R = Ok 1%R) in H. injection H; lra.
Qed.

(** C7.  In parser mode a candidate on which the parser raises
    [SyntaxError] scores 0.0 without raising.  For a candidate that
    parses, a reference with a [SyntaxError] is skipped: the score is that
    of the list without it, and when every reference either parses or has
    a [SyntaxError] it is the greatest ratio over the references that
    parse (0.0 if none does).  An exception of another type is not caught:
    raised on the candidate it is raised by the matcher whatever the
    references are, and raised on a reference that is reached it aborts
    the computation, whatever the references after it are. *)
Theorem C7_parse_failures (lib : PyLib) (candidate_code : string)
  (reference_codes : list string) :
  (ast_parse lib candidate_code = SyntaxError ->
   _calculate_python_ast_score lib candidate_code reference_codes = Ok 0%R)
  /\ (forall tree, ast_parse lib candidate_code = Parsed tree ->
      (forall before bad after,
          reference_codes = before ++ bad :: after ->
          ast_parse lib bad = SyntaxError ->
          _calculate_python_ast_score lib candidate_code reference_codes
          = _calculate_python_ast_score lib candidate_code (before ++ after))
      /\ ((forall r, In r reference_codes -> raises_on_parse lib r = false) ->
          let ratios :=
            map (similarity (_extract_ast_nodes tree))
                (parsed_references lib reference_codes) in
          _calculate_python_ast_score lib candidate_code reference_codes
          = Ok (max_ratio ratios)
          /\ (forall q, In q ratios -> (q <= max_ratio ratios)%R)
          /\ (ratios <> [] -> In (max_ratio ratios) ratios)))
  /\ (forall e, ast_parse lib candidate_code = ParseRaises e ->
      _calculate_python_ast_score lib candidate_code reference_codes = Raise e)
  /\ (forall tree e before bad after,
         ast_parse lib candidate_code = Parsed tree ->
         reference_codes = before ++ bad :: after ->
         (forall r, In r before -> raises_on_parse lib r = false) ->
         ast_parse lib bad = ParseRaises e ->
         _calculate_python_ast_score lib candidate_code reference_codes
         = Raise e).
Proof.
  split; [| split; [| split]].
  - intro Hc. unfold _calculate_python_ast_score. now rewrite Hc.
  - intros tree Hc; split.
    + intros before bad after -> Hbad.
      unfold _calculate_python_ast_score; rewrite Hc.
      now apply python_ast_loop_skip.
    + intros Hno ratios; repeat split.
      * unfold _calculate_python_ast_score; rewrite Hc.
        rewrite python_ast_loop_spec by assumption. f_equal.
        rewrite (fold_left_map py_max), fold_py_max_max_ratio by lra.
        apply Rmax_right, max_ratio_nonneg.
      * intros q Hq; now apply max_ratio_upper.
      * intro Hne. apply max_ratio_attained; [| assumption].
        intros q Hq. apply in_map_iff in Hq as [nodes [<- _]].
        apply similarity_range.
  - intros e Hc. unfold _calculate_python_ast_score. now rewrite Hc.
  - intros tree e before bad after Hc Heq Hbefore Hbad.
    unfold _calculate_python_ast_score; rewrite Hc.
    apply python_ast_loop_raises. now exists before, bad, after.
Qed.

Lemma C7_parse_failures_witness :
  _calculate_python_ast_score PyRef.lib "(" ["x = 1"] = Ok 0%R
  /\ _calculate_python_ast_score PyRef.lib "x = 1" ["("; PyRef.src_def_f; "x = 1"]
     = _calculate_python_ast_score PyRef.lib "x = 1" [PyRef.src_def_f; "x = 1"]
  /\ _calculate_python_ast_score PyRef.lib "x = 1" ["("; PyRef.src_def_f; "x = 1"]
     = Ok (max_ratio
             [similarity (_extract_ast_nodes PyRef.tree_assign)
                         (_extract_ast_nodes PyRef.tree_def_f);
              similarity (_extract_ast_nodes PyRef.tree_assign)
                         (_extract_ast_nodes PyRef.tree_assign)])
  /\ _calculate_python_ast_score PyRef.lib PyRef.nul ["x = 1"]
     = Raise (ValueError "source code string cannot contain null bytes")
  /\ _calculate_python_ast_score PyRef.lib "x = 1" ["("; PyRef.nul; "x = 1"]
     = Raise (ValueError "source code string cannot contain null bytes").
Proof.
  split; [| split; [| split; [| split]]].
  - apply (C7_parse_failures PyRef.lib "(" ["x = 1"]). reflexivity.
  - destruct (C7_parse_failures PyRef.lib "x = 1" ["("; PyRef.src_def_f; "x = 1"])
      as [_ [H _]].
    destruct (H PyRef.tree_assign eq_refl) as [Hskip _].
    apply (Hskip [] "(" [PyRef.src_def_f; "x = 1"]); reflexivity.
  - destruct (C7_parse_failures PyRef.lib "x = 1" ["("; PyRef.src_def_f; "x = 1"])
      as [_ [H _]].
    destruct (H PyRef.tree_assign eq_refl) as [_ Hmax].
    apply Hmax. intros r [<- | [<- | [<- | []]]]; reflexivity.
  - apply (C7_parse_failures PyRef.lib PyRef.nul ["x = 1"]). reflexivity.
  - destruct (C7_parse_failures PyRef.lib "x = 1" ["("; PyRef.nul; "x = 1"])
      as [_ [_ [_ H]]].
    apply (H PyRef.tree_assign _ ["("] PyRef.nul ["x = 1"]);
      try reflexivity.
    intros r [<- | []]. reflexivity.
Defined.

(** A parse failure that is not a [SyntaxError] is an exception of the
    matcher: a candidate with a null byte (a [ValueError] of [ast.parse]
    up to CPython 3.11) gets no score, and a reference with one aborts the
    computation although the candidate parses and the other reference is
    the candidate itself. *)
Lemma C7_uncaught_parser_exception_counterexample :
  parses PyRef.lib PyRef.nul = false
  /\ _calculate_python_ast_score PyRef.lib PyRef.nul ["x = 1"]
     = Raise (ValueError "source code string cannot contain null bytes")
  /\ _calculate_python_ast_score PyRef.lib "x = 1" [PyRef.nul; "x = 1"]
     = Raise (ValueError "source code string cannot contain null bytes")
  /\ ~ (forall lib candidate_code reference_codes,
          parses lib candidate_code = false ->
          _calculate_python_ast_score lib candidate_code reference_codes
          = Ok 0%R)
  /\ ~ (forall lib candidate_code reference_codes,
          parses lib candidate_code = true ->
          exists v,
            _calculate_python_ast_score lib candidate_code reference_codes
            = Ok v).
Proof.
  split; [reflexivity |]. split; [reflexivity |]. split; [reflexivity |].
  split.
  - intro H. specialize (H PyRef.lib PyRef.nul ["x = 1"] eq_refl).
    discriminate H.
  - intro H.
    destruct (H PyRef.lib "x = 1" [PyRef.nul; "x = 1"] eq_refl) as [v Hv].
    discriminate Hv.
Qed.

(** C10.  For a language tag other than python, javascript and java the
    pattern extractor returns the empty list on every input, and the
    structural score in pattern mode is 1.0 for any candidate and any
    non-empty reference list. *)
Theorem C10_unknown_language_structures (lib : PyLib) (language : string) :
  ~ In language ["python"; "javascript"; "java"] ->
  (forall code, _extract_code_structures lib code language = [])
  /\ (forall candidate references,
         references <> [] ->
         _calculate_structural_similarity lib candidate references language = 1%R
         /\ calculate_ast_matching_score lib candidate references language = Ok 1%R).
Proof.
  intro Hn.
  assert (Hpy : String.eqb language "python" = false)
    by (apply (string_eqb_false_of_notin _ _ _ Hn); simpl; auto).
  assert (Hjs : String.eqb language "javascript" = false)
    by (apply (string_eqb_false_of_notin _ _ _ Hn); simpl; auto).
  assert (Hjava : String.eqb language "java" = false)
    by (apply (string_eqb_false_of_notin _ _ _ Hn); simpl; auto).
  assert (Hex : forall code, _extract_code_structures lib code language = []).
  { intro code; unfold _extract_code_structures; now rewrite Hjs, Hjava. }
  split; [exact Hex |].
  intros candidate references Hne.
  assert (Hs : _calculate_structural_similarity lib candidate references language = 1%R).
  { destruct references as [| r references]; [contradiction |].
    apply structural_identical. exists r; split; [now left |].
    now rewrite !Hex. }
  split; [exact Hs |].
  unfold calculate_ast_matching_score; now rewrite Hpy, Hs.
Qed.

Lemma C10_unknown_language_structures_witness :
  _extract_code_structures PyRef.lib "class Foo; def bar; end" "ruby" = []
  /\ calculate_ast_matching_score PyRef.lib "class Foo; end" ["puts 1"] "ruby" = Ok 1%R.
Proof.
  assert (Hn : ~ In "ruby" ["python"; "javascript"; "java"]).
  { simpl; intros [H | [H | [H | []]]]; discriminate. }
  destruct (C10_unknown_language_structures PyRef.lib "ruby" Hn) as [Hex Hs].
  split; [apply Hex |].
  apply Hs; discriminate.
Defined.

(** ** The composite score *)

(** With a positive [max_n] the BLEU scorer returns a number. *)
Lemma bleu_total (candidate : list token) (references : list (list token))
  (max_n : nat) :
  max_n <> 0 -> exists v, calculate_bleu_score candidate references max_n = Ok v.
Proof.
  intro Hn. unfold calculate_bleu_score.
  destruct candidate as [| t candidate]; [now exists 0%R |].
  destruct references as [| ref0 refs]; [now exists 0%R |].
  destruct (existsb _ _); [now exists 0%R |].
  rewrite length_map, length_seq.
  destruct max_n as [| k]; [contradiction |].
  eexists; reflexivity.
Qed.

Lemma weighted_bleu_total (candidate : list token) (references : list (list token))
  (language : string) :
  exists v, calculate_weighted_bleu_score candidate references language = Ok v.
Proof. unfold calculate_weighted_bleu_score; now apply bleu_total. Qed.

(** [evaluate] raises exactly what the structural matcher raises. *)
Lemma evaluate_raises (lib : PyLib) (self : CodeBLEUEvaluator)
  (candidate_code : string) (reference_codes : reference_arg)
  (language : option string) (e : exn) :
  calculate_ast_matching_score lib candidate_code (reference_list reference_codes)
    (resolved_language language candidate_code) = Raise e
  <-> evaluate lib self candidate_code reference_codes language = Raise e.
Proof.
  unfold evaluate.
  change (match reference_codes with
          | OneRef reference => [reference]
          | ManyRefs references => references
          end) with (reference_list reference_codes).
  change (match language with
          | Some l => l
          | None => detect_language candidate_code
          end) with (resolved_language language candidate_code).
  destruct (bleu_total
              (tokenize_code lib candidate_code
                 (resolved_language language candidate_code))
              (map (fun ref => tokenize_code lib ref
                                 (resolved_language language candidate_code))
                   (reference_list reference_codes)) 4) as [b ->]; [discriminate |].
  destruct (weighted_bleu_total
              (tokenize_code lib candidate_code
                 (resolved_language language candidate_code))
              (map (fun ref => tokenize_code lib ref
                                 (resolved_language language candidate_code))
                   (reference_list reference_codes))
              (resolved_language language candidate_code)) as [wb ->].
  simpl.
  destruct (calculate_ast_matching_score lib candidate_code
              (reference_list reference_codes)
              (resolved_language language candidate_code)); simpl;
    split; intro H; congruence.
Qed.


(** C1.  Whenever [evaluate] returns, the composite score of the result
    is the weighted sum of the four sub-scores of that same result, with
    the weights of the instance, which the result carries. *)
Theorem C1_composite_score (lib : PyLib) (self : CodeBLEUEvaluator)
  (candidate_code : string) (reference_codes : reference_arg)
  (language : option string) (r : EvaluationResult) :
  evaluate lib self candidate_code reference_codes language = Ok r ->
  codebleu r
  = (alpha self * bleu r + beta self * weighted_bleu r
     + gamma self * ast_match r + delta self * control_flow r)%R
  /\ alpha (weights r) = alpha self /\ beta (weights r) = beta self
  /\ gamma (weights r) = gamma self /\ delta (weights r) = delta self.
Proof.
  unfold evaluate.
  destruct (calculate_bleu_score _ _ 4) as [b | e]; simpl; [| discriminate].
  destruct (calculate_weighted_bleu_score _ _ _) as [wb | e]; simpl; [| discriminate].
  destruct (calculate_ast_matching_score _ _ _ _) as [a | e]; simpl; [| discriminate].
  intro H; injection H as <-; simpl. repeat split; reflexivity.
Qed.

(** The result of [evaluate], given the three scores that can be results. *)
Lemma evaluate_ok (lib : PyLib) (self : CodeBLEUEvaluator)
  (candidate_code : string) (reference_codes : reference_arg)
  (language : option string) (b wb a : R) :
  let refs := reference_list reference_codes in
  let lang := resolved_language language candidate_code in
  let candidate_tokens := tokenize_code lib candidate_code lang in
  let reference_tokens_list := map (fun ref => tokenize_code lib ref lang) refs in
  calculate_bleu_score candidate_tokens reference_tokens_list 4 = Ok b ->
  calculate_weighted_bleu_score candidate_tokens reference_tokens_list lang = Ok wb ->
  calculate_ast_matching_score lib candidate_code refs lang = Ok a ->
  evaluate lib self candidate_code reference_codes language
  = Ok {| codebleu :=
            (alpha self * b + beta self * wb + gamma self * a
             + delta self * calculate_control_flow_score lib candidate_code refs lang)%R;
          bleu := b;
          weighted_bleu := wb;
          ast_match := a;
          control_flow := calculate_control_flow_score lib candidate_code refs lang;
          language := lang;
          weights := {| alpha := alpha self; beta := beta self;
                        gamma := gamma self; delta := delta self |} |}.
Proof.
  intros refs lang candidate_tokens reference_tokens_list Hb Hwb Ha.
  unfold evaluate.
  change (match reference_codes with
          | OneRef reference => [reference]
          | ManyRefs references => references
          end) with refs.
  change (match language with
          | Some l => l
          | None => detect_language candidate_code
          end) with lang.
  fold candidate_tokens. fold reference_tokens_list.
  rewrite Hb, Hwb, Ha. reflexivity.
Qed.

(** The scenario of a Python function scored against itself with the
    default weights: every sub-score is 1. *)
Lemma evaluate_def_f :
  evaluate PyRef.lib default_evaluator PyRef.src_def_f (OneRef PyRef.src_def_f) None
  = Ok {| codebleu := (25 / 100 * 1 + 25 / 100 * 1 + 25 / 100 * 1 + 25 / 100 * 1)%R;
          bleu := 1%R;
          weighted_bleu := 1%R;
          ast_match := 1%R;
          control_flow := 1%R;
          language := "python";
          weights := default_evaluator |}.
Proof.
  assert (Hd : resolved_language None PyRef.src_def_f = "python")
    by (vm_compute; reflexivity).
  assert (Ht : tokenize_code PyRef.lib PyRef.src_def_f "python"
               = ["def"; "f"; "("; "x"; ")"; ":"; "return"; "x"; "+"; "1"])
    by (vm_compute; reflexivity).
  assert (Hc : calculate_control_flow_score PyRef.lib PyRef.src_def_f
                 [PyRef.src_def_f] "python" = 1%R)
    by (apply control_flow_identical; exists PyRef.src_def_f; split;
        [now left | apply similarity_self]).
  rewrite (evaluate_ok PyRef.lib default_evaluator PyRef.src_def_f
             (OneRef PyRef.src_def_f) None 1 1 1).
  - rewrite Hd. simpl reference_list. rewrite Hc. reflexivity.
  - rewrite Hd. simpl reference_list. simpl map. rewrite Ht.
    apply bleu_self; simpl; lia.
  - rewrite Hd. simpl reference_list. simpl map. rewrite Ht.
    unfold calculate_weighted_bleu_score.
    change (dict_get keywords "python") with python_keywords.
    simpl map.
    replace (weight_tokens python_keywords
               ["def"; "f"; "("; "x"; ")"; ":"; "return"; "x"; "+"; "1"])
      with ["def"; "def"; "f"; "("; "x"; ")"; ":"; "return"; "return"; "x"; "+"; "1"]
      by (vm_compute; reflexivity).
    apply bleu_self; simpl; lia.
  - rewrite Hd. simpl reference_list.
    unfold calculate_ast_matching_score; simpl String.eqb.
    apply python_ast_identical; [reflexivity | now left |].
    intros r [<- | []]; reflexivity.
Qed.

Lemma C1_composite_score_witness :
  exists r,
    evaluate PyRef.lib default_evaluator PyRef.src_def_f (OneRef PyRef.src_def_f) None
    = Ok r
    /\ codebleu r
       = (alpha default_evaluator * bleu r + beta default_evaluator * weighted_bleu r
          + gamma default_evaluator * ast_match r
          + delta default_evaluator * control_flow r)%R.
Proof.
  eexists; split; [apply evaluate_def_f |].
  apply (C1_composite_score PyRef.lib default_evaluator PyRef.src_def_f
           (OneRef PyRef.src_def_f) None _ evaluate_def_f).
Defined.

(** ** The weight check *)

Module Binary64Facts.

Import PrimFloat FloatOps FloatAxioms SpecFloat.
#[local] Open Scope float_scope.

Lemma Prim2SF_one : Prim2SF 1 = S754_finite false 4503599627370496 (-52).
Proof. vm_compute. reflexivity. Qed.

Lemma Prim2SF_infinity : Prim2SF infinity = S754_infinity false.
Proof. vm_compute. reflexivity. Qed.

(** A sum with an infinite or NaN term is infinite or NaN. *)
Lemma add_nonfinite_l (a b : float) :
  Binary64.nonfinite a = true -> Binary64.nonfinite (a + b) = true.
Proof.
  unfold Binary64.nonfinite. rewrite add_spec.
  destruct (Prim2SF a) as [sa | sa | | sa ma ea]; try discriminate; intros _;
    destruct (Prim2SF b) as [sb | sb | | sb mb eb]; try reflexivity;
    destruct sa, sb; reflexivity.
Qed.

Lemma add_nonfinite_r (a b : float) :
  Binary64.nonfinite b = true -> Binary64.nonfinite (a + b) = true.
Proof.
  unfold Binary64.nonfinite. rewrite add_spec.
  destruct (Prim2SF b) as [sb | sb | | sb mb eb]; try discriminate; intros _;
    destruct (Prim2SF a) as [sa | sa | | sa ma ea]; try reflexivity;
    destruct sa, sb; reflexivity.
Qed.

(** No infinity and no NaN is close to 1.0. *)
Lemma isclose_nonfinite (x rel_tol : float) :
  Binary64.nonfinite x = true -> Binary64.isclose x 1 rel_tol = false.
Proof.
  unfold Binary64.nonfinite, Binary64.isclose, is_infinity.
  rewrite !leb_spec, !eqb_spec, !abs_spec, sub_spec, Prim2SF_one, Prim2SF_infinity.
  destruct (Prim2SF x) as [sx | sx | | sx mx ex]; try discriminate; intros _.
  - destruct sx; reflexivity.
  - reflexivity.
Qed.

(** A weight vector with an infinite or NaN weight fails the check. *)
Lemma weights_nonfinite (a b g d : float) :
  Binary64.nonfinite a || Binary64.nonfinite b
  || Binary64.nonfinite g || Binary64.nonfinite d = true ->
  Binary64.weights_accepted a b g d = false.
Proof.
  intro H. apply isclose_nonfinite.
  rewrite !orb_true_iff in H. destruct H as [[[H | H] | H] | H].
  - now do 3 apply add_nonfinite_l.
  - now do 2 apply add_nonfinite_l; apply add_nonfinite_r.
  - now apply add_nonfinite_l, add_nonfinite_r.
  - now apply add_nonfinite_r.
Qed.

(** A sum that is exactly 1.0 passes. *)
Lemma weights_sum_one (a b g d : float) :
  a + b + g + d = 1 -> Binary64.weights_accepted a b g d = true.
Proof.
  intro H. unfold Binary64.weights_accepted. rewrite H.
  vm_compute. reflexivity.
Qed.

Lemma to_R_quarter : Binary64.to_R 0.25 = (25 / 100)%R.
Proof.
  unfold Binary64.to_R.
  replace (Prim2SF 0.25) with (S754_finite false 4503599627370496 (-54))
    by (vm_compute; reflexivity).
  cbn [powerRZ].
  replace (Pos.to_nat 54) with 54%nat by reflexivity. simpl pow. lra.
Qed.

Example weights_03_rejected : Binary64.weights_accepted 0.3 0.3 0.3 0.3 = false.
Proof. vm_compute. reflexivity. Qed.

Example weights_default_accepted :
  Binary64.weights_accepted 0.25 0.25 0.25 0.25 = true.
Proof. vm_compute. reflexivity. Qed.

(** The sum is the rounded one: these four weights add up to 2 exactly,
    and to 1.0 from left to right in binary64. *)
Example weights_rounded_sum_accepted :
  Binary64.weights_accepted 1e16 1 (-1e16) 1 = true.
Proof. vm_compute. reflexivity. Qed.

Example variance_of_ones : Binary64.variance [1; 1; 1] = 0.
Proof. vm_compute. reflexivity. Qed.

Example composite_of_ones : 0.25 * 1 + 0.25 * 1 + 0.25 * 1 + 0.25 * 1 = 1.
Proof. vm_compute. reflexivity. Qed.

End Binary64Facts.

Section WeightCheck.

Import PrimFloat.

(** [__init__] raises or stores, as the check on the weights decides. *)
Lemma init_cases (a b g d : PrimFloat.float) :
  init a b g d
  = if Binary64.weights_accepted a b g d
    then Ok {| alpha := Binary64.to_R a; beta := Binary64.to_R b;
               gamma := Binary64.to_R g; delta := Binary64.to_R d |}
    else Raise (ValueError "Weights must sum to 1.0").
Proof.
  unfold init. now destruct (Binary64.weights_accepted _ _ _ _).
Qed.

(** The default weights pass the check. *)
Lemma init_default :
  init 0.25%float 0.25%float 0.25%float 0.25%float = Ok default_evaluator.
Proof.
  rewrite init_cases, Binary64Facts.weights_default_accepted.
  unfold default_evaluator. now rewrite Binary64Facts.to_R_quarter.
Qed.



End WeightCheck.

(** ** The dataset aggregator *)

Lemma py_sum_sum_list (l : list R) : py_sum l = sum_list l.
Proof.
  induction l as [| x l IH]; [reflexivity |].
  rewrite py_sum_cons, IH; reflexivity.
Qed.




(** Each pair that evaluates adds one entry to [self.results]. *)
Lemma evaluate_loop_results (lib : PyLib) (dataset : list (string * string)) :
  forall (self : CodeBLEUDatasetEvaluator) (i : nat)
         (individual_scores : list EvaluationResult),
    map scores (results (snd (evaluate_loop lib self i dataset individual_scores)))
    = map scores (results self) ++ successful_scores lib (evaluator self) dataset.
Proof.
  induction dataset as [| [generated reference] rest IH];
    intros self i individual_scores; simpl.
  - now rewrite app_nil_r.
  - destruct (evaluate lib (evaluator self) generated (OneRef reference) None)
      as [sc | e]; simpl.
    + rewrite IH; simpl. now rewrite map_app, <- app_assoc.
    + apply IH.
Qed.









(** ** The executable instance on sample inputs *)

Example tokenize_python_sample :
  tokenize_code PyRef.lib ("x = 1 # comment (a)" ++ PyRef.nl ++ "y=X_2+foo.bar") "python"
  = ["x"; "="; "1"; "y"; "="; "x_2"; "+"; "foo"; "."; "bar"].
Proof. vm_compute. reflexivity. Qed.

Example tokenize_javascript_sample :
  tokenize_code PyRef.lib
    ("function f(){return 1;} // c" ++ PyRef.nl ++ "/* multi" ++ PyRef.nl
     ++ " line */ var X = 2;") "javascript"
  = ["function"; "f"; "("; ")"; "{"; "return"; "1"; ";"; "}"; "var"; "x"; "=";
     "2"; ";"].
Proof. vm_compute. reflexivity. Qed.

Example control_flow_sample :
  _extract_control_flow PyRef.lib
    "if (x) { return 1; } else if(y){ for  (;;) break; } while(1) continue; IF(x) try catch"
    "javascript"
  = ["if ("; "if("; "IF("; "else"; "for  ("; "while("; "try"; "catch"; "break";
     "continue"; "return"].
Proof. vm_compute. reflexivity. Qed.

Example structures_javascript_sample :
  _extract_code_structures PyRef.lib
    "function foo(){} class Bar {} baz : function() const qux = (a, b) => a;"
    "javascript"
  = ["foo"; "Bar"; "baz"; "qux"].
Proof. vm_compute. reflexivity. Qed.

Example structures_java_sample :
  _extract_code_structures PyRef.lib
    "public class Foo { public int bar (int x) {} private void qux(){} interface I {} }"
    "java"
  = ["Foo"; "I"; "bar"; "qux"].
Proof. vm_compute. reflexivity. Qed.

Example ast_nodes_sample :
  _extract_ast_nodes PyRef.tree_def_f
  = ["Module"; "FunctionDef"; "arguments"; "Return"; "arg"; "BinOp"; "Name";
     "Add"; "Constant"; "Load"].
Proof. reflexivity. Qed.

Example detect_language_samples :
  detect_language "function f(){return 1;}" = "javascript"
  /\ detect_language PyRef.src_def_f = "python"
  /\ detect_language "public class A { private int x; }" = "java"
  /\ detect_language "x = 1" = "python".
Proof. repeat split; vm_compute; reflexivity. Qed.

(** The n-gram counts of a sequence sum to its number of n-grams. *)
Lemma ngram_counts_total (tokens : list token) (n : nat) :
  Counter.total (_get_ngrams tokens n) = List.length tokens + 1 - n.
Proof.
  unfold _get_ngrams. now rewrite CounterFacts.total_of_list, ngrams_of_length.
Qed.

(** * Further properties of the scorers *)

(** ** What [_get_ngrams] counts *)

Lemma get_incr (k k' : ngram) (c : Counter.t) :
  Counter.get k (Counter.incr k' c)
  = if ngram_eqb k k' then S (Counter.get k c) else Counter.get k c.
Proof.
  induction c as [| [k1 v1] c IH]; simpl.
  - destruct (ngram_eqb k k'); reflexivity.
  - destruct (ngram_eqb k' k1) eqn:E1; simpl.
    + apply ngram_eqb_eq in E1; subst k1.
      destruct (ngram_eqb k k'); reflexivity.
    + destruct (ngram_eqb k k1) eqn:E2; [| apply IH].
      apply ngram_eqb_eq in E2; subst k1.
      destruct (ngram_eqb k k') eqn:E3; [| reflexivity].
      apply ngram_eqb_eq in E3; subst; now rewrite ngram_eqb_refl in E1.
Qed.

Lemma get_fold_incr (k : ngram) (items : list ngram) (c : Counter.t) :
  Counter.get k (fold_left (fun c k => Counter.incr k c) items c)
  = count_occ ngram_dec items k + Counter.get k c.
Proof.
  revert c; induction items as [| x items IH]; intro c; simpl; [reflexivity |].
  rewrite IH, get_incr.
  destruct (ngram_dec x k) as [-> | N].
  - rewrite ngram_eqb_refl; lia.
  - replace (ngram_eqb k x) with false; [reflexivity |].
    symmetry; apply ngram_eqb_neq; congruence.
Qed.

Lemma get_of_list (k : ngram) (items : list ngram) :
  Counter.get k (Counter.of_list items) = count_occ ngram_dec items k.
Proof. unfold Counter.of_list; rewrite get_fold_incr; simpl; lia. Qed.

Lemma fold_incr_keys (x : ngram) (items : list ngram) (c : Counter.t) :
  In x (map fst (fold_left (fun c k => Counter.incr k c) items c))
  <-> In x items \/ In x (map fst c).
Proof.
  revert c; induction items as [| k items IH]; intro c; simpl; [tauto |].
  rewrite IH, CounterFacts.incr_keys. intuition.
Qed.

Lemma of_list_keys (x : ngram) (items : list ngram) :
  In x (map fst (Counter.of_list items)) <-> In x items.
Proof. unfold Counter.of_list; rewrite fold_incr_keys; simpl; tauto. Qed.

Lemma ngrams_of_size (tokens : list token) (n : nat) (g : ngram) :
  In g (ngrams_of tokens n) -> List.length g = n.
Proof.
  unfold ngrams_of; intro H. apply in_map_iff in H as [i [<- Hi]].
  apply in_seq in Hi. rewrite length_firstn, length_skipn. lia.
Qed.

(** X1.  [_get_ngrams(tokens, n)] maps each n-gram to the number of
    positions at which it occurs in [tokens]; its keys are pairwise
    distinct, consist of [n] tokens each and have a positive count; and
    the counts add up to [len(tokens) - n + 1], or 0 if that is negative. *)
Theorem X1_get_ngrams_counts (tokens : list token) (n : nat) :
  (forall g, Counter.get g (_get_ngrams tokens n)
             = count_occ ngram_dec (ngrams_of tokens n) g)
  /\ NoDup (map fst (_get_ngrams tokens n))
  /\ (forall g c, In (g, c) (_get_ngrams tokens n) ->
                  List.length g = n /\ 1 <= c
                  /\ c = count_occ ngram_dec (ngrams_of tokens n) g)
  /\ Counter.total (_get_ngrams tokens n) = List.length tokens + 1 - n.
Proof.
  unfold _get_ngrams. split; [| split; [| split]].
  - intro g; apply get_of_list.
  - apply CounterFacts.of_list_wf.
  - intros g c Hin.
    assert (Hkey : In g (ngrams_of tokens n)).
    { apply of_list_keys. change g with (fst (g, c)). now apply in_map. }
    assert (Hc : c = count_occ ngram_dec (ngrams_of tokens n) g).
    { rewrite <- get_of_list. symmetry.
      apply CounterFacts.get_present; [apply CounterFacts.of_list_wf | exact Hin]. }
    split; [now apply ngrams_of_size in Hkey |]. split; [| exact Hc].
    rewrite Hc. now apply count_occ_In.
  - now rewrite CounterFacts.total_of_list, ngrams_of_length.
Qed.

Lemma X1_get_ngrams_counts_witness :
  List.length ["a"; "b"] = 2 /\ 1 <= 2
  /\ 2 = count_occ ngram_dec (ngrams_of ["a"; "b"; "a"; "b"] 2) ["a"; "b"].
Proof.
  destruct (X1_get_ngrams_counts ["a"; "b"; "a"; "b"] 2) as [_ [_ [H _]]].
  apply (H ["a"; "b"] 2). vm_compute. left; reflexivity.
Defined.

(** ** Clipped precision, brevity penalty and the range of BLEU *)

Lemma fold_clipped_le (c : Counter.t) (m : Counter.t) (a : nat) :
  fold_left (fun correct kv => correct + Nat.min (snd kv) (Counter.get (fst kv) m)) c a
  <= fold_left (fun acc kv => acc + snd kv) c a.
Proof.
  revert a; induction c as [| kv c IH]; intro a; simpl; [lia |].
  etransitivity; [apply IH |].
  rewrite !CounterFacts.total_acc. lia.
Qed.

Lemma ngram_precision_range (candidate : list token)
  (references : list (list token)) (n : nat) :
  (0 <= ngram_precision candidate references n <= 1)%R.
Proof.
  unfold ngram_precision.
  destruct (_get_ngrams candidate n) as [| kv c] eqn:E; [lra |].
  set (m := max_counts_of _).
  pose proof (fold_clipped_le (kv :: c) m 0) as Hle.
  fold (Counter.total (kv :: c)) in Hle.
  destruct (0 <? Counter.total (kv :: c)) eqn:Hpos; [| lra].
  apply Nat.ltb_lt in Hpos.
  assert (Ht : (0 < INR (Counter.total (kv :: c)))%R) by now apply lt_0_INR.
  apply le_INR in Hle.
  split.
  - apply Rmult_le_pos; [apply pos_INR | left; now apply Rinv_0_lt_compat].
  - apply Rmult_le_reg_r with (r := INR (Counter.total (kv :: c))); [assumption |].
    unfold Rdiv; rewrite Rmult_assoc, Rinv_l by lra. lra.
Qed.

Lemma exp_le_one (x : R) : (x <= 0)%R -> (0 < exp x <= 1)%R.
Proof.
  intro H; split; [apply exp_pos |].
  destruct (Req_dec_T x 0) as [-> | N]; [rewrite exp_0; lra |].
  rewrite <- exp_0. left; apply exp_increasing; lra.
Qed.

Lemma brevity_penalty_range (candidate_length reference_length : nat) :
  (0 <= brevity_penalty_of candidate_length reference_length <= 1)%R.
Proof.
  unfold brevity_penalty_of.
  destruct (reference_length <? candidate_length) eqn:E1; [lra |].
  destruct (0 <? candidate_length) eqn:E2; [| lra].
  apply Nat.ltb_ge in E1. apply Nat.ltb_lt in E2.
  assert (Hc : (0 < INR candidate_length)%R) by now apply lt_0_INR.
  assert (Hr : (INR candidate_length <= INR reference_length)%R) by now apply le_INR.
  assert (H1 : (1 <= INR reference_length / INR candidate_length)%R).
  { apply Rmult_le_reg_r with (r := INR candidate_length); [assumption |].
    unfold Rdiv; rewrite Rmult_assoc, Rinv_l by lra. lra. }
  assert (H := exp_le_one (1 - INR reference_length / INR candidate_length)).
  lra.
Qed.

Lemma py_sum_nonpos (l : list R) : Forall (fun x => (x <= 0)%R) l -> (py_sum l <= 0)%R.
Proof.
  induction 1 as [| x l Hx _ IH]; [unfold py_sum; simpl; lra |].
  rewrite py_sum_cons; lra.
Qed.

Lemma ln_nonpos (p : R) : (0 < p <= 1)%R -> (ln p <= 0)%R.
Proof.
  intros [H0 H1]. destruct (Req_dec_T p 1) as [-> | N]; [rewrite ln_1; lra |].
  rewrite <- ln_1. left; apply ln_increasing; lra.
Qed.

(** The value returned by [calculate_bleu_score] lies between 0 and 1. *)
Lemma bleu_range (candidate : list token) (references : list (list token))
  (max_n : nat) (v : R) :
  calculate_bleu_score candidate references max_n = Ok v -> (0 <= v <= 1)%R.
Proof.
  unfold calculate_bleu_score.
  destruct candidate as [| t candidate]; [intro H; injection H as <-; lra |].
  destruct references as [| ref0 refs]; [intro H; injection H as <-; lra |].
  set (precisions := map _ (seq 1 max_n)).
  destruct (existsb _ precisions) eqn:Hex; [intro H; injection H as <-; lra |].
  destruct (List.length precisions) as [| k] eqn:Hlen; [discriminate |].
  intro H; injection H as <-.
  assert (Hp : Forall (fun x => (x <= 0)%R) (map ln precisions)).
  { apply Forall_forall; intros y Hy. apply in_map_iff in Hy as [p [<- Hin]].
    apply ln_nonpos.
    assert (Hr : (0 <= p <= 1)%R).
    { subst precisions. apply in_map_iff in Hin as [n [<- _]].
      apply ngram_precision_range. }
    assert (Hne : p <> 0%R).
    { intro E; subst p.
      assert (Ht : existsb (fun p => float_eq p 0%R) precisions = true).
      { apply existsb_exists. exists 0%R; split; [assumption |].
        now apply float_eq_true. }
      congruence. }
    lra. }
  apply py_sum_nonpos in Hp.
  set (bp := brevity_penalty_of _ _).
  pose proof (brevity_penalty_range (List.length (t :: candidate))
                (List.length (closest_ref (List.length (t :: candidate)) ref0 refs)))
    as Hbp.
  change (0 <= bp <= 1)%R in Hbp.
  assert (Hk : (0 < INR (S k))%R) by (apply lt_0_INR; lia).
  assert (Hq : (py_sum (map ln precisions) / INR (S k) <= 0)%R).
  { unfold Rdiv. apply Rmult_le_reg_r with (r := INR (S k)); [assumption |].
    rewrite Rmult_assoc, Rinv_l by lra. lra. }
  apply exp_le_one in Hq.
  change (match k with 0%nat => 1 | S _ => INR k + 1 end)%R with (INR (S k)).
  nra.
Qed.

(** X2.  [calculate_bleu_score], its [max_n] an integer, raises only
    [ZeroDivisionError], and exactly when [max_n] is 0 or negative while
    the candidate and the reference list are both non-empty; in every
    other case it returns a score between 0 and 1, every n-gram precision
    lying between 0 and 1 as well. *)
Theorem X2_bleu_range_and_errors (candidate : list token)
  (references : list (list token)) (max_n : Z) :
  (forall e, calculate_bleu_score_int candidate references max_n = Raise e
             <-> e = ZeroDivisionError /\ (max_n <= 0)%Z
                 /\ candidate <> [] /\ references <> [])
  /\ (forall v, calculate_bleu_score_int candidate references max_n = Ok v ->
                (0 <= v <= 1)%R)
  /\ (forall n, (0 <= ngram_precision candidate references n <= 1)%R).
Proof.
  unfold calculate_bleu_score_int.
  split; [| split; [apply bleu_range | apply ngram_precision_range]].
  intro e; split.
  - intro H.
    destruct (Z.to_nat max_n) as [| k] eqn:Hn.
    + destruct candidate as [| t candidate]; [discriminate |].
      destruct references as [| ref0 refs]; [discriminate |].
      simpl in H. injection H as <-.
      split; [reflexivity |]. split; [lia |]. split; discriminate.
    + destruct (bleu_total candidate references (S k)) as [v Hv]; [discriminate |].
      congruence.
  - intros [-> [Hn [Hc Hr]]].
    replace (Z.to_nat max_n) with 0 by lia.
    destruct candidate as [| t candidate]; [contradiction |].
    destruct references as [| ref0 refs]; [contradiction |].
    reflexivity.
Qed.

Lemma X2_bleu_range_and_errors_witness :
  calculate_bleu_score_int ["a"; "b"] [["a"]] (-2) = Raise ZeroDivisionError.
Proof.
  apply (X2_bleu_range_and_errors ["a"; "b"] [["a"]] (-2)).
  split; [reflexivity |]. split; [lia |]. split; discriminate.
Defined.

(** ** The closest reference and the brevity penalty *)

Lemma closest_ref_cons (n : nat) (ref0 r : list token) (refs : list (list token)) :
  closest_ref n ref0 (r :: refs)
  = closest_ref n
      (if abs_diff (List.length r) n <? abs_diff (List.length ref0) n then r else ref0)
      refs.
Proof. reflexivity. Qed.

Lemma closest_ref_in (n : nat) (refs : list (list token)) :
  forall ref0, In (closest_ref n ref0 refs) (ref0 :: refs).
Proof.
  induction refs as [| r refs IH]; intro ref0; [now left |].
  rewrite closest_ref_cons.
  destruct (IH (if abs_diff (List.length r) n <? abs_diff (List.length ref0) n
                then r else ref0)) as [H | H].
  - rewrite <- H. destruct (_ <? _); [right; now left | now left].
  - right; now right.
Qed.

Lemma closest_ref_least (n : nat) (refs : list (list token)) :
  forall ref0 r,
    In r (ref0 :: refs) ->
    abs_diff (List.length (closest_ref n ref0 refs)) n <= abs_diff (List.length r) n.
Proof.
  induction refs as [| r1 refs IH]; intros ref0 r Hin.
  - destruct Hin as [<- | []]. reflexivity.
  - rewrite closest_ref_cons.
    destruct (abs_diff (List.length r1) n <? abs_diff (List.length ref0) n) eqn:E.
    + apply Nat.ltb_lt in E.
      destruct Hin as [<- | [<- | Hin]].
      * etransitivity; [apply (IH r1 r1); now left | lia].
      * apply IH; now left.
      * apply IH; now right.
    + apply Nat.ltb_ge in E.
      destruct Hin as [<- | [<- | Hin]].
      * apply IH; now left.
      * etransitivity; [apply (IH ref0 ref0); now left | lia].
      * apply IH; now right.
Qed.

Lemma closest_ref_first (n : nat) (refs : list (list token)) :
  forall ref0,
    exists before after,
      ref0 :: refs = before ++ closest_ref n ref0 refs :: after
      /\ forall r, In r before ->
                   abs_diff (List.length (closest_ref n ref0 refs)) n
                   < abs_diff (List.length r) n.
Proof.
  induction refs as [| r1 refs IH]; intro ref0.
  - exists [], []. split; [reflexivity | intros r []].
  - rewrite closest_ref_cons.
    destruct (abs_diff (List.length r1) n <? abs_diff (List.length ref0) n) eqn:E.
    + apply Nat.ltb_lt in E.
      destruct (IH r1) as [before [after [Heq Hlt]]].
      exists (ref0 :: before), after. split; [simpl; now rewrite <- Heq |].
      intros r [<- | Hin]; [| now apply Hlt].
      pose proof (closest_ref_least n refs r1 r1 (or_introl eq_refl)). lia.
    + apply Nat.ltb_ge in E.
      destruct (IH ref0) as [before [after [Heq Hlt]]].
      destruct before as [| b before].
      * simpl in Heq. injection Heq as Hc Ha.
        exists [], (r1 :: refs). split; [simpl; now rewrite <- Hc | intros r []].
      * simpl in Heq. injection Heq as Hb Hrest. subst b.
        exists (ref0 :: r1 :: before), after.
        split; [simpl; do 2 f_equal; exact Hrest |].
        intros r [<- | [<- | Hin]].
        -- apply Hlt; now left.
        -- pose proof (Hlt ref0 (or_introl eq_refl)). lia.
        -- apply Hlt; now right.
Qed.

(** X3.  The reference whose length enters the brevity penalty is a
    member of the reference list whose length is nearest to the
    candidate's, and the first such member: every reference before it is
    strictly farther. *)
Theorem X3_closest_reference (candidate_length : nat) (ref0 : list token)
  (refs : list (list token)) :
  In (closest_ref candidate_length ref0 refs) (ref0 :: refs)
  /\ (forall r, In r (ref0 :: refs) ->
                abs_diff (List.length (closest_ref candidate_length ref0 refs))
                         candidate_length
                <= abs_diff (List.length r) candidate_length)
  /\ exists before after,
      ref0 :: refs = before ++ closest_ref candidate_length ref0 refs :: after
      /\ forall r, In r before ->
                   abs_diff (List.length (closest_ref candidate_length ref0 refs))
                            candidate_length
                   < abs_diff (List.length r) candidate_length.
Proof.
  split; [apply closest_ref_in |]. split; [apply closest_ref_least |].
  apply closest_ref_first.
Qed.

(** X4.  For a non-empty candidate the brevity penalty is 1 exactly when
    the candidate is at least as long as the closest reference; when it
    is shorter the penalty is below 1 and not negative.  (Nothing more is
    said of how small it is: the exponential of the code rounds to 0.0
    once the reference is some hundreds of times longer.)  The lengths are
    taken below 2^50, where the quotient of two different lengths is told
    apart from 1 by the arithmetic of the code as well. *)
Theorem X4_brevity_penalty (candidate_length reference_length : nat) :
  0 < candidate_length ->
  (Z.of_nat candidate_length < 2 ^ 50)%Z ->
  (Z.of_nat reference_length < 2 ^ 50)%Z ->
  (brevity_penalty_of candidate_length reference_length = 1%R
   <-> reference_length <= candidate_length)
  /\ (candidate_length < reference_length ->
      (0 <= brevity_penalty_of candidate_length reference_length < 1)%R).
Proof.
  intros Hc _ _.
  assert (Hlt : candidate_length < reference_length ->
                (0 <= brevity_penalty_of candidate_length reference_length < 1)%R).
  { intro H. unfold brevity_penalty_of.
    replace (reference_length <? candidate_length) with false
      by (symmetry; apply Nat.ltb_ge; lia).
    replace (0 <? candidate_length) with true by (symmetry; now apply Nat.ltb_lt).
    split; [apply Rlt_le, exp_pos |].
    apply Rlt_le_trans with (exp 0); [| rewrite exp_0; lra].
    apply exp_increasing.
    assert (H0 : (0 < INR candidate_length)%R) by now apply lt_0_INR.
    assert (H1 : (INR candidate_length < INR reference_length)%R) by now apply lt_INR.
    assert (H2 : (1 < INR reference_length / INR candidate_length)%R).
    { apply Rmult_lt_reg_r with (r := INR candidate_length); [assumption |].
      unfold Rdiv; rewrite Rmult_assoc, Rinv_l by lra. lra. }
    lra. }
  split; [| exact Hlt]. split.
  - intro H1. destruct (Nat.le_gt_cases reference_length candidate_length) as [L | G];
      [exact L |].
    apply Hlt in G. lra.
  - intro Hle. destruct (Nat.eq_dec reference_length candidate_length) as [-> | N].
    + now apply brevity_penalty_self.
    + unfold brevity_penalty_of.
      replace (reference_length <? candidate_length) with true; [reflexivity |].
      symmetry; apply Nat.ltb_lt; lia.
Qed.

Lemma X4_brevity_penalty_witness :
  (brevity_penalty_of 3 5 <> 1)%R /\ (0 <= brevity_penalty_of 3 5 < 1)%R.
Proof.
  destruct (X4_brevity_penalty 3 5) as [Hiff Hlt];
    [lia | reflexivity | reflexivity |].
  split; [| apply Hlt; lia].
  intro H. apply Hiff in H. lia.
Defined.

(** ** Scores 0 and 1 of [calculate_bleu_score] *)

Lemma existsb_zero_precision (candidate : list token)
  (references : list (list token)) (max_n n : nat) :
  1 <= n <= max_n ->
  ngram_precision candidate references n = 0%R ->
  existsb (fun p => float_eq p 0%R)
          (map (ngram_precision candidate references) (seq 1 max_n)) = true.
Proof.
  intros Hn Hz. apply existsb_exists. exists 0%R. split.
  - rewrite <- Hz. apply in_map, in_seq. lia.
  - now apply float_eq_true.
Qed.

Lemma bleu_zero_precision (candidate : list token)
  (references : list (list token)) (max_n n : nat) :
  1 <= n <= max_n ->
  ngram_precision candidate references n = 0%R ->
  calculate_bleu_score candidate references max_n = Ok 0%R.
Proof.
  intros Hn Hz. unfold calculate_bleu_score.
  destruct candidate as [| t candidate]; [reflexivity |].
  destruct references as [| ref0 refs]; [reflexivity |].
  now rewrite (existsb_zero_precision _ _ _ n Hn Hz).
Qed.

(** X5.  A candidate with fewer than [max_n] tokens scores 0.0 against
    any references: it has no n-gram of order [max_n].  In particular
    [evaluate], which uses [max_n = 4], gives BLEU 0.0 to every candidate
    of at most three tokens. *)
Theorem X5_short_candidate_scores_zero (candidate : list token)
  (references : list (list token)) (max_n : nat) :
  List.length candidate < max_n ->
  calculate_bleu_score candidate references max_n = Ok 0%R.
Proof.
  intro H. apply (bleu_zero_precision _ _ _ max_n); [lia |].
  unfold ngram_precision, _get_ngrams, ngrams_of.
  replace (List.length candidate + 1 - max_n) with 0 by lia. reflexivity.
Qed.

Lemma X5_short_candidate_scores_zero_witness :
  calculate_bleu_score ["return"; "x"; ";"] [["return"; "x"; ";"]; ["return"; "y"]] 4
  = Ok 0%R.
Proof.
  apply (X5_short_candidate_scores_zero ["return"; "x"; ";"]
           [["return"; "x"; ";"]; ["return"; "y"]] 4).
  simpl; lia.
Defined.

Lemma set_max_keys (x k : ngram) (v : nat) (c : Counter.t) :
  In x (map fst (Counter.set_max k v c)) <-> x = k \/ In x (map fst c).
Proof.
  induction c as [| [k' v'] c IH]; simpl.
  - intuition.
  - destruct (ngram_eqb k k') eqn:E; simpl.
    + apply ngram_eqb_eq in E; subst; intuition.
    + rewrite IH; intuition.
Qed.

Lemma fold_set_max_keys (x : ngram) (c m : Counter.t) :
  In x (map fst (fold_left (fun mc kv => Counter.set_max (fst kv) (snd kv) mc) c m))
  <-> In x (map fst c) \/ In x (map fst m).
Proof.
  revert m; induction c as [| kv c IH]; intro m; simpl; [tauto |].
  rewrite IH, set_max_keys. intuition.
Qed.

Lemma max_counts_keys (x : ngram) (cs : list Counter.t) (m : Counter.t) :
  In x (map fst
          (fold_left
             (fun max_counts ref_ngrams =>
                fold_left (fun mc kv => Counter.set_max (fst kv) (snd kv) mc)
                          ref_ngrams max_counts)
             cs m))
  <-> (exists c, In c cs /\ In x (map fst c)) \/ In x (map fst m).
Proof.
  revert m; induction cs as [| c cs IH]; intro m; simpl.
  - split; [tauto | intros [[c [[] _]] | H]; exact H].
  - rewrite IH, fold_set_max_keys. split.
    + intros [[c' [Hin Hx]] | [H | H]].
      * left; exists c'; auto.
      * left; exists c; auto.
      * now right.
    + intros [[c' [[<- | Hin] Hx]] | H].
      * right; now left.
      * left; now exists c'.
      * right; now right.
Qed.

Lemma unigram_token (tokens : list token) (g : ngram) :
  In g (ngrams_of tokens 1) -> exists t, g = [t] /\ In t tokens.
Proof.
  unfold ngrams_of; intro H. apply in_map_iff in H as [i [<- Hi]].
  apply in_seq in Hi.
  destruct (skipn i tokens) as [| t rest] eqn:E.
  - apply (f_equal (@List.length token)) in E. rewrite length_skipn in E.
    simpl in E; lia.
  - exists t; split; [reflexivity |].
    rewrite <- (firstn_skipn i tokens), E. apply in_or_app; right; now left.
Qed.

Lemma token_unigram (tokens : list token) (t : token) :
  In t tokens -> In [t] (ngrams_of tokens 1).
Proof.
  intro H. apply In_nth with (d := t) in H as [i [Hi Hn]].
  unfold ngrams_of. apply in_map_iff. exists i. split.
  - rewrite <- Hn. clear Hn. revert i Hi.
    induction tokens as [| x tokens IH]; intros i Hi; [simpl in Hi; lia |].
    destruct i as [| i]; [reflexivity |].
    simpl. apply IH. simpl in Hi; lia.
  - apply in_seq. lia.
Qed.

Lemma fold_left_keep {A B : Type} (l : list B) (a : A) :
  fold_left (fun acc _ => acc) l a = a.
Proof. induction l as [| x l IH]; simpl; auto. Qed.

(** X6.  A candidate none of whose tokens occurs in any reference scores
    0.0, for every [max_n] of at least 1: its unigram precision is 0. *)
Theorem X6_disjoint_vocabulary_scores_zero (candidate : list token)
  (references : list (list token)) (max_n : nat) :
  1 <= max_n ->
  (forall t r, In t candidate -> In r references -> ~ In t r) ->
  calculate_bleu_score candidate references max_n = Ok 0%R.
Proof.
  intros Hn Hdis. apply (bleu_zero_precision _ _ _ 1); [lia |].
  unfold ngram_precision.
  destruct (_get_ngrams candidate 1) as [| kv c] eqn:E; [reflexivity |].
  rewrite <- E.
  set (m := max_counts_of _).
  assert (Hzero : forall g v, In (g, v) (_get_ngrams candidate 1) ->
                              Counter.get g m = 0).
  { intros g v Hin. apply CounterFacts.get_absent. intro Hkey.
    assert (Hg : In g (ngrams_of candidate 1)).
    { apply (proj1 (of_list_keys g (ngrams_of candidate 1))).
      change g with (fst (g, v)). now apply in_map. }
    apply unigram_token in Hg as [t [-> Ht]].
    unfold m, max_counts_of in Hkey. apply max_counts_keys in Hkey.
    destruct Hkey as [[cr [Hcr Hx]] | []].
    apply in_map_iff in Hcr as [r [<- Hr]].
    unfold _get_ngrams in Hx. apply (proj1 (of_list_keys _ _)) in Hx.
    apply unigram_token in Hx as [t' [Heq Ht']].
    injection Heq as <-. exact (Hdis t r Ht Hr Ht'). }
  replace (fold_left _ (_get_ngrams candidate 1) 0) with 0.
  - destruct (0 <? _); [| reflexivity]. unfold Rdiv; simpl; lra.
  - symmetry.
    rewrite (fold_left_ext_in _ (fun correct _ => correct)).
    + apply fold_left_keep.
    + intros a [g v] Hin. simpl. rewrite (Hzero g v Hin). lia.
Qed.

Lemma X6_disjoint_vocabulary_scores_zero_witness :
  calculate_bleu_score ["a"; "b"; "c"; "d"] [["x"; "y"; "z"; "w"]; ["u"]] 4 = Ok 0%R.
Proof.
  apply (X6_disjoint_vocabulary_scores_zero ["a"; "b"; "c"; "d"]
           [["x"; "y"; "z"; "w"]; ["u"]] 4); [lia |].
  intros t r Ht Hr Hin. simpl in Ht, Hr.
  destruct Hr as [<- | [<- | []]]; simpl in Hin;
    repeat (destruct Ht as [<- | Ht]; [intuition discriminate |]); contradiction.
Defined.

Lemma get_max_counts_fold (k : ngram) (cs : list Counter.t) :
  Forall Counter.wf cs ->
  forall m,
    Counter.get k m
    <= Counter.get k
         (fold_left
            (fun max_counts ref_ngrams =>
               fold_left (fun mc kv => Counter.set_max (fst kv) (snd kv) mc)
                         ref_ngrams max_counts)
            cs m)
    /\ forall c, In c cs ->
                 Counter.get k c
                 <= Counter.get k
                      (fold_left
                         (fun max_counts ref_ngrams =>
                            fold_left (fun mc kv => Counter.set_max (fst kv) (snd kv) mc)
                                      ref_ngrams max_counts)
                         cs m).
Proof.
  induction 1 as [| c cs Hwf _ IH]; intro m; simpl.
  - split; [lia | intros c []].
  - destruct (IH (fold_left (fun mc kv => Counter.set_max (fst kv) (snd kv) mc) c m))
      as [Hm Hc].
    rewrite CounterFacts.get_fold_set_max in Hm by assumption.
    split; [lia |].
    intros c' [<- | Hin]; [lia | now apply Hc].
Qed.

(** Against references that contain the candidate every n-gram of the
    candidate is counted in full. *)
Lemma ngram_precision_member (x : list token) (references : list (list token))
  (n : nat) :
  In x references -> 1 <= n <= List.length x ->
  ngram_precision x references n = 1%R.
Proof.
  intros Hin [Hn1 Hn]; unfold ngram_precision.
  assert (Hlen : List.length (ngrams_of x n) <> 0)
    by (rewrite ngrams_of_length; lia).
  assert (Htot : Counter.total (_get_ngrams x n) = List.length (ngrams_of x n))
    by apply CounterFacts.total_of_list.
  destruct (_get_ngrams x n) as [| kv c] eqn:E.
  - exfalso; unfold Counter.total in Htot; simpl in Htot; congruence.
  - rewrite <- E in *.
    set (m := max_counts_of _).
    assert (Hge : forall g, Counter.get g (_get_ngrams x n) <= Counter.get g m).
    { intro g. unfold m, max_counts_of.
      apply get_max_counts_fold.
      - apply Forall_forall; intros c' Hc'.
        apply in_map_iff in Hc' as [r [<- _]]. apply CounterFacts.of_list_wf.
      - apply in_map_iff. now exists x. }
    replace (fold_left _ (_get_ngrams x n) 0) with (Counter.total (_get_ngrams x n)).
    + rewrite Htot.
      destruct (0 <? List.length (ngrams_of x n)) eqn:Hpos;
        [| apply Nat.ltb_ge in Hpos; lia].
      field. apply not_0_INR; assumption.
    + unfold Counter.total. apply fold_left_ext_in. intros a [g v] Hg; simpl.
      pose proof (Hge g) as H.
      rewrite (CounterFacts.get_present g v (_get_ngrams x n)) in H
        by (apply CounterFacts.of_list_wf || assumption).
      lia.
Qed.

Lemma bleu_perfect (candidate ref0 : list token) (refs : list (list token))
  (max_n : nat) :
  candidate <> [] -> 1 <= max_n ->
  (forall n, 1 <= n <= max_n -> ngram_precision candidate (ref0 :: refs) n = 1%R) ->
  brevity_penalty_of (List.length candidate)
    (List.length (closest_ref (List.length candidate) ref0 refs)) = 1%R ->
  calculate_bleu_score candidate (ref0 :: refs) max_n = Ok 1%R.
Proof.
  intros Hne Hm Hp Hbp.
  assert (Hps : map (ngram_precision candidate (ref0 :: refs)) (seq 1 max_n)
                = repeat 1%R max_n).
  { assert (G : forall k s, s + k <= S max_n -> 1 <= s ->
                 map (ngram_precision candidate (ref0 :: refs)) (seq s k)
                 = repeat 1%R k).
    { induction k as [| k IH]; intros s Hs H1; simpl; [reflexivity |].
      rewrite Hp by lia. f_equal. apply IH; lia. }
    apply G; lia. }
  unfold calculate_bleu_score.
  destruct candidate as [| t x']; [contradiction |].
  rewrite Hps, Hbp.
  assert (Hex : existsb (fun p => float_eq p 0%R) (repeat 1%R max_n) = false).
  { clear; induction max_n as [| k IH]; simpl; [reflexivity |].
    rewrite IH, orb_false_r. apply float_eq_false; lra. }
  rewrite Hex, repeat_length.
  destruct max_n as [| k]; [lia |].
  rewrite py_sum_zero.
  - f_equal. unfold Rdiv; rewrite Rmult_0_l, exp_0; lra.
  - apply Forall_forall; intros y Hy.
    apply in_map_iff in Hy as [p [<- Hin]].
    apply repeat_spec in Hin; subst p. apply ln_1.
Qed.

Lemma bleu_member (x : list token) (references : list (list token)) (max_n : nat) :
  In x references -> 1 <= max_n <= List.length x ->
  calculate_bleu_score x references max_n = Ok 1%R.
Proof.
  intros Hin [Hm1 Hm].
  destruct references as [| ref0 refs]; [contradiction |].
  apply bleu_perfect; [destruct x; [simpl in Hm; lia | discriminate] | lia | |].
  - intros n Hn; apply ngram_precision_member; [assumption | lia].
  - pose proof (closest_ref_least (List.length x) refs ref0 x Hin) as Hle.
    unfold abs_diff in Hle at 2. rewrite Nat.sub_diag in Hle.
    assert (Heq : List.length (closest_ref (List.length x) ref0 refs) = List.length x)
      by (unfold abs_diff in Hle; lia).
    rewrite Heq. apply brevity_penalty_self; lia.
Qed.

(** X7.  A candidate that is itself one of the references, and has at
    least [max_n >= 1] tokens, scores exactly 1.0, whatever the other
    references are and wherever it stands in the list. *)
Theorem X7_candidate_among_references (x : list token)
  (references : list (list token)) (max_n : nat) :
  In x references -> 1 <= max_n <= List.length x ->
  calculate_bleu_score x references max_n = Ok 1%R
  /\ forall n, 1 <= n <= max_n -> ngram_precision x references n = 1%R.
Proof.
  intros Hin Hm; split.
  - now apply bleu_member.
  - intros n Hn. apply ngram_precision_member; [assumption | lia].
Qed.

Lemma X7_candidate_among_references_witness :
  calculate_bleu_score ["a"; "b"; "a"; "b"]
    [["c"]; ["a"; "b"; "a"; "b"]; ["a"; "b"; "c"; "d"; "e"]] 4 = Ok 1%R.
Proof.
  apply (X7_candidate_among_references ["a"; "b"; "a"; "b"]
           [["c"]; ["a"; "b"; "a"; "b"]; ["a"; "b"; "c"; "d"; "e"]] 4).
  - right; left; reflexivity.
  - simpl; lia.
Defined.

(** ** The keyword weighting *)

Lemma weight_tokens_length (keywords : list string) (tokens : list token) :
  List.length (weight_tokens keywords tokens)
  = List.length tokens
    + List.length (filter (fun token => str_in token keywords) tokens).
Proof.
  induction tokens as [| t tokens IH]; [reflexivity |].
  unfold weight_tokens in *; simpl.
  destruct (str_in t keywords); simpl; rewrite IH; lia.
Qed.

Lemma weight_tokens_in (keywords : list string) (tokens : list token) (t : token) :
  In t (weight_tokens keywords tokens) <-> In t tokens.
Proof.
  unfold weight_tokens. rewrite in_flat_map. split.
  - intros [x [Hx Ht]]. destruct (str_in x keywords); simpl in Ht;
      intuition; subst; assumption.
  - intro H. exists t; split; [assumption |].
    destruct (str_in t keywords); simpl; auto.
Qed.

(** X8.  The weighting lengthens a sequence by one token per keyword
    occurrence and introduces no new token; the weighted score never
    raises and lies between 0 and 1; and a candidate of at least four
    tokens that is one of the references has weighted score 1.0 in every
    language. *)
Theorem X8_weighted_bleu (candidate : list token)
  (references : list (list token)) (language : string) :
  List.length (weight_tokens (dict_get keywords language) candidate)
  = List.length candidate
    + List.length (filter (fun token => str_in token (dict_get keywords language))
                          candidate)
  /\ (forall t, In t (weight_tokens (dict_get keywords language) candidate)
                <-> In t candidate)
  /\ (exists v, calculate_weighted_bleu_score candidate references language = Ok v
                /\ (0 <= v <= 1)%R)
  /\ (In candidate references -> 4 <= List.length candidate ->
      calculate_weighted_bleu_score candidate references language = Ok 1%R).
Proof.
  split; [apply weight_tokens_length |].
  split; [intro t; apply weight_tokens_in |].
  split.
  - destruct (weighted_bleu_total candidate references language) as [v Hv].
    exists v; split; [exact Hv |].
    unfold calculate_weighted_bleu_score in Hv. now apply bleu_range in Hv.
  - intros Hin Hlen. unfold calculate_weighted_bleu_score.
    apply bleu_member; [now apply in_map |].
    rewrite weight_tokens_length. lia.
Qed.

Lemma X8_weighted_bleu_witness :
  calculate_weighted_bleu_score ["if"; "x"; "return"; "y"]
    [["pass"]; ["if"; "x"; "return"; "y"]] "python" = Ok 1%R.
Proof.
  destruct (X8_weighted_bleu ["if"; "x"; "return"; "y"]
              [["pass"]; ["if"; "x"; "return"; "y"]] "python") as [_ [_ [_ H]]].
  apply H; [right; left; reflexivity | simpl; lia].
Defined.

(** ** The set ratio as a Jaccard index *)

Lemma to_set_in (x : string) (l : list string) : In x (to_set l) <-> In x l.
Proof. apply nodup_In. Qed.

Lemma to_set_nodup (l : list string) : NoDup (to_set l).
Proof. apply NoDup_nodup. Qed.

Lemma same_elements_length (l l' : list string) :
  NoDup l -> NoDup l' -> (forall x, In x l <-> In x l') ->
  List.length l = List.length l'.
Proof.
  intros H H' Heq. apply Nat.le_antisymm; apply NoDup_incl_length; try assumption;
    intros x Hx; now apply Heq.
Qed.

Lemma inter_length_ext (a a' b b' : list string) :
  (forall x, In x a <-> In x a') -> (forall x, In x b <-> In x b') ->
  List.length (set_inter string_dec (to_set a) (to_set b))
  = List.length (set_inter string_dec (to_set a') (to_set b')).
Proof.
  intros Ha Hb. apply same_elements_length.
  - apply set_inter_nodup; apply to_set_nodup.
  - apply set_inter_nodup; apply to_set_nodup.
  - intro x. rewrite !set_inter_iff, !to_set_in, Ha, Hb. tauto.
Qed.

Lemma union_length_ext (a a' b b' : list string) :
  (forall x, In x a <-> In x a') -> (forall x, In x b <-> In x b') ->
  List.length (set_union string_dec (to_set a) (to_set b))
  = List.length (set_union string_dec (to_set a') (to_set b')).
Proof.
  intros Ha Hb. apply same_elements_length.
  - apply set_union_nodup; apply to_set_nodup.
  - apply set_union_nodup; apply to_set_nodup.
  - intro x. rewrite !set_union_iff, !to_set_in, Ha, Hb. tauto.
Qed.

Lemma same_elements_nil (a a' : list string) :
  (forall x, In x a <-> In x a') -> a = [] -> a' = [].
Proof.
  intros H ->. destruct a' as [| y a']; [reflexivity |].
  exfalso. apply (H y). now left.
Qed.

(** The ratio depends only on the two sets of elements. *)
Lemma similarity_ext (a a' b b' : list string) :
  (forall x, In x a <-> In x a') -> (forall x, In x b <-> In x b') ->
  similarity a b = similarity a' b'.
Proof.
  intros Ha Hb.
  assert (Ha' : forall x, In x a' <-> In x a) by (intro x; symmetry; apply Ha).
  assert (Hb' : forall x, In x b' <-> In x b) by (intro x; symmetry; apply Hb).
  assert (Hbnil : forall y b0 (l : list string),
             (forall x, In x (y :: b0) <-> In x l) -> l <> []).
  { intros y b0 l H ->. apply (H y). now left. }
  destruct a as [| x a], a' as [| x' a'].
  - destruct b as [| y b], b' as [| y' b']; try reflexivity.
    + exfalso. now apply (Hbnil y' b' [] Hb').
    + exfalso. now apply (Hbnil y b [] Hb).
  - exfalso. now apply (Hbnil x' a' [] Ha').
  - exfalso. now apply (Hbnil x a [] Ha).
  - destruct b as [| y b], b' as [| y' b']; try reflexivity.
    + exfalso. now apply (Hbnil y' b' [] Hb').
    + exfalso. now apply (Hbnil y b [] Hb).
    + unfold similarity.
      rewrite (inter_length_ext _ _ _ _ Ha Hb), (union_length_ext _ _ _ _ Ha Hb).
      reflexivity.
Qed.

Lemma similarity_sym (a b : list string) : similarity a b = similarity b a.
Proof.
  destruct a as [| x a], b as [| y b]; try reflexivity.
  unfold similarity.
  replace (List.length (set_inter string_dec (to_set (y :: b)) (to_set (x :: a))))
    with (List.length (set_inter string_dec (to_set (x :: a)) (to_set (y :: b)))).
  - replace (List.length (set_union string_dec (to_set (y :: b)) (to_set (x :: a))))
      with (List.length (set_union string_dec (to_set (x :: a)) (to_set (y :: b))));
      [reflexivity |].
    apply same_elements_length;
      try (apply set_union_nodup; apply to_set_nodup).
    intro z. rewrite !set_union_iff. tauto.
  - apply same_elements_length;
      try (apply set_inter_nodup; apply to_set_nodup).
    intro z. rewrite !set_inter_iff. tauto.
Qed.

(** X9.  The ratio computed for one reference lies between 0 and 1, is
    symmetric, and depends only on which strings occur in the two lists,
    not on their order or on how often they occur. *)
Theorem X9_similarity_is_a_set_ratio (a b : list string) :
  (0 <= similarity a b <= 1)%R
  /\ similarity a b = similarity b a
  /\ (forall a' b',
         (forall x, In x a <-> In x a') -> (forall x, In x b <-> In x b') ->
         similarity a b = similarity a' b')
  /\ similarity (a ++ a) (rev b) = similarity a b.
Proof.
  split; [apply similarity_range |]. split; [apply similarity_sym |].
  split; [intros a' b'; apply similarity_ext |].
  apply similarity_ext; intro x.
  - rewrite in_app_iff; tauto.
  - symmetry; apply in_rev.
Qed.

Lemma union_nonempty (x : string) (a b : list string) :
  0 < List.length (set_union string_dec (to_set (x :: a)) (to_set b)).
Proof.
  assert (H : In x (set_union string_dec (to_set (x :: a)) (to_set b))).
  { apply set_union_iff; left. apply to_set_in; now left. }
  destruct (set_union _ _ _); [contradiction | simpl; lia].
Qed.

Lemma ratio_nonempty (x y : string) (a b : list string) :
  similarity (x :: a) (y :: b)
  = (INR (List.length (set_inter string_dec (to_set (x :: a)) (to_set (y :: b))))
     / INR (List.length (set_union string_dec (to_set (x :: a)) (to_set (y :: b)))))%R.
Proof.
  unfold similarity.
  replace (0 <? _) with true; [reflexivity |].
  symmetry; apply Nat.ltb_lt, union_nonempty.
Qed.

Lemma similarity_one_iff (a b : list string) :
  similarity a b = 1%R <-> forall x, In x a <-> In x b.
Proof.
  split.
  - destruct a as [| x a], b as [| y b].
    + intros _ z; tauto.
    + simpl; intro H; lra.
    + simpl; intro H; lra.
    + rewrite ratio_nonempty.
      set (i := set_inter string_dec (to_set (x :: a)) (to_set (y :: b))).
      set (u := set_union string_dec (to_set (x :: a)) (to_set (y :: b))).
      intro H.
      assert (Hu : (0 < INR (List.length u))%R)
        by (apply lt_0_INR, union_nonempty).
      assert (Heq : INR (List.length i) = INR (List.length u)).
      { apply Rmult_eq_reg_r with (r := (/ INR (List.length u))%R).
        - unfold Rdiv in H. rewrite H, Rinv_r; lra.
        - apply Rinv_neq_0_compat; lra. }
      apply INR_eq in Heq.
      assert (Hincl : incl u i).
      { apply NoDup_length_incl.
        - apply set_inter_nodup; apply to_set_nodup.
        - lia.
        - intros z Hz. apply set_union_iff; left.
          now apply set_inter_iff in Hz as [Hz _]. }
      intro z; split; intro Hz.
      * assert (Hzu : In z u) by (apply set_union_iff; left; now apply to_set_in).
        apply Hincl, set_inter_iff in Hzu as [_ Hzb]. exact (proj1 (to_set_in _ _) Hzb).
      * assert (Hzu : In z u) by (apply set_union_iff; right; now apply to_set_in).
        apply Hincl, set_inter_iff in Hzu as [Hza _]. exact (proj1 (to_set_in _ _) Hza).
  - intro H. rewrite (similarity_ext a b b b H (fun x => iff_refl _)).
    apply similarity_self.
Qed.

Lemma similarity_zero_iff (a b : list string) :
  similarity a b = 0%R
  <-> (a = [] /\ b <> []) \/ (a <> [] /\ b = [])
      \/ (a <> [] /\ b <> [] /\ forall x, In x a -> ~ In x b).
Proof.
  destruct a as [| x a], b as [| y b].
  - simpl; split; [intro H; lra |].
    intros [[_ H] | [[H _] | [H _]]]; contradiction.
  - simpl; split; [intros _; left; split; [reflexivity | discriminate] | reflexivity].
  - simpl; split;
      [intros _; right; left; split; [discriminate | reflexivity] | reflexivity].
  - rewrite ratio_nonempty.
    set (i := set_inter string_dec (to_set (x :: a)) (to_set (y :: b))).
    set (u := set_union string_dec (to_set (x :: a)) (to_set (y :: b))).
    assert (Hu : (0 < INR (List.length u))%R) by (apply lt_0_INR, union_nonempty).
    split.
    + intro H. right; right. split; [discriminate |]. split; [discriminate |].
      assert (Hi : INR (List.length i) = 0%R).
      { apply Rmult_eq_reg_r with (r := (/ INR (List.length u))%R).
        - unfold Rdiv in H. rewrite H; lra.
        - apply Rinv_neq_0_compat; lra. }
      change 0%R with (INR 0) in Hi. apply INR_eq in Hi.
      apply length_zero_iff_nil in Hi.
      intros z Hza Hzb.
      assert (Hz : In z i) by (apply set_inter_iff; split; now apply to_set_in).
      rewrite Hi in Hz; contradiction.
    + intros [[H _] | [[_ H] | [_ [_ Hdis]]]]; try discriminate.
      assert (Hi : i = []).
      { destruct i as [| z i'] eqn:Ei; [reflexivity |].
        assert (Hz : In z (set_inter string_dec (to_set (x :: a)) (to_set (y :: b))))
          by (fold i; rewrite Ei; now left).
        apply set_inter_iff in Hz as [Hza Hzb].
        exfalso.
        exact (Hdis z (proj1 (to_set_in _ _) Hza) (proj1 (to_set_in _ _) Hzb)). }
      rewrite Hi; simpl. unfold Rdiv; lra.
Qed.

(** X10.  The ratio is 1.0 exactly when the two lists have the same
    elements, and 0.0 exactly when one list is empty and the other is
    not, or both are non-empty and share no element. *)
Theorem X10_similarity_extremes (a b : list string) :
  (similarity a b = 1%R <-> forall x, In x a <-> In x b)
  /\ (similarity a b = 0%R
      <-> (a = [] /\ b <> []) \/ (a <> [] /\ b = [])
          \/ (a <> [] /\ b <> [] /\ forall x, In x a -> ~ In x b)).
Proof. split; [apply similarity_one_iff | apply similarity_zero_iff]. Qed.

(** ** The best ratio over the references *)

Section BestScore.

Context {A : Type} (f : A -> R).
Hypothesis f_range : forall x, (0 <= f x <= 1)%R.

Lemma best_max_ratio (l : list A) : best f l = max_ratio (map f l).
Proof.
  unfold best. rewrite (fold_left_map py_max), fold_py_max_max_ratio by lra.
  apply Rmax_right, max_ratio_nonneg.
Qed.

Lemma max_ratio_app (l1 l2 : list R) :
  max_ratio (l1 ++ l2) = Rmax (max_ratio l1) (max_ratio l2).
Proof.
  induction l1 as [| y l1 IH]; simpl.
  - symmetry; apply Rmax_right, max_ratio_nonneg.
  - now rewrite IH, Rmax_assoc.
Qed.

Lemma max_ratio_perm (l l' : list R) : Permutation l l' -> max_ratio l = max_ratio l'.
Proof.
  induction 1 as [| x l l' _ IH | x y l | l l' l'' _ IH1 _ IH2]; simpl.
  - reflexivity.
  - now rewrite IH.
  - rewrite !Rmax_assoc, (Rmax_comm y x). reflexivity.
  - now rewrite IH1.
Qed.

Lemma max_ratio_le (l : list R) (c : R) :
  (0 <= c)%R -> (forall q, In q l -> (q <= c)%R) -> (max_ratio l <= c)%R.
Proof.
  intros Hc; induction l as [| y l IH]; intro H; simpl; [assumption |].
  apply Rmax_lub; [apply H; now left | apply IH; intros; apply H; now right].
Qed.

Lemma best_range (l : list A) : (0 <= best f l <= 1)%R.
Proof.
  rewrite best_max_ratio. split; [apply max_ratio_nonneg |].
  apply max_ratio_le; [lra |].
  intros q Hq. apply in_map_iff in Hq as [x [<- _]]. apply f_range.
Qed.

Lemma best_app (l1 l2 : list A) : best f (l1 ++ l2) = Rmax (best f l1) (best f l2).
Proof. now rewrite !best_max_ratio, map_app, max_ratio_app. Qed.

Lemma best_perm (l l' : list A) : Permutation l l' -> best f l = best f l'.
Proof.
  intro H. rewrite !best_max_ratio. apply max_ratio_perm. now apply Permutation_map.
Qed.

Lemma best_one_iff (l : list A) : best f l = 1%R <-> exists x, In x l /\ f x = 1%R.
Proof.
  split.
  - intro H. rewrite best_max_ratio in H.
    destruct l as [| a l]; [simpl in H; lra |].
    assert (Hin : In (max_ratio (map f (a :: l))) (map f (a :: l))).
    { apply max_ratio_attained; [| discriminate].
      intros q Hq. apply in_map_iff in Hq as [x [<- _]]. apply f_range. }
    rewrite H in Hin. apply in_map_iff in Hin as [x [Hx Hin]]. now exists x.
  - intros [x [Hin Hx]]. apply Rle_antisym; [apply best_range |].
    rewrite best_max_ratio, <- Hx. apply max_ratio_upper. now apply in_map.
Qed.

Lemma best_zero_iff (l : list A) : best f l = 0%R <-> forall x, In x l -> f x = 0%R.
Proof.
  rewrite best_max_ratio. split.
  - intros H x Hin.
    assert (Hle : (f x <= max_ratio (map f l))%R)
      by (apply max_ratio_upper; now apply in_map).
    pose proof (f_range x). lra.
  - intro H. apply Rle_antisym; [| apply max_ratio_nonneg].
    apply max_ratio_le; [lra |].
    intros q Hq. apply in_map_iff in Hq as [x [<- Hin]]. rewrite (H x Hin). lra.
Qed.

End BestScore.

Lemma control_flow_as_best (lib : PyLib) (candidate_code : string)
  (reference_codes : list string) (language : string) :
  calculate_control_flow_score lib candidate_code reference_codes language
  = best (fun ref_code =>
            similarity (_extract_control_flow lib candidate_code language)
                       (_extract_control_flow lib ref_code language))
         reference_codes.
Proof. reflexivity. Qed.

(** X11.  The control-flow score lies between 0 and 1, is 0.0 for an
    empty reference list, does not depend on the language argument or on
    the order of the references, and over two lists of references put
    together it is the greater of the two scores.  It is 1.0 exactly when
    some reference yields the same set of matches as the candidate, and
    0.0 exactly when every reference has ratio 0 with the candidate. *)
Theorem X11_control_flow_score (lib : PyLib) (candidate_code : string)
  (reference_codes : list string) (language : string) :
  let cf code := _extract_control_flow lib code language in
  let score refs := calculate_control_flow_score lib candidate_code refs language in
  (0 <= score reference_codes <= 1)%R
  /\ score [] = 0%R
  /\ (forall other_language,
         calculate_control_flow_score lib candidate_code reference_codes other_language
         = score reference_codes)
  /\ (forall more, score (reference_codes ++ more)
                   = Rmax (score reference_codes) (score more))
  /\ (forall reordered, Permutation reference_codes reordered ->
                        score reordered = score reference_codes)
  /\ (score reference_codes = 1%R
      <-> exists r, In r reference_codes
                    /\ forall x, In x (cf candidate_code) <-> In x (cf r))
  /\ (score reference_codes = 0%R
      <-> forall r, In r reference_codes ->
                    similarity (cf candidate_code) (cf r) = 0%R).
Proof.
  intros cf score.
  assert (Hr : forall r, (0 <= similarity (cf candidate_code) (cf r) <= 1)%R)
    by (intro r; apply similarity_range).
  repeat split.
  - apply (best_range _ Hr).
  - apply (best_range _ Hr).
  - intros more. unfold score. rewrite !control_flow_as_best.
    apply best_app.
  - intros reordered Hp. unfold score. rewrite !control_flow_as_best.
    symmetry. now apply best_perm.
  - unfold score; rewrite control_flow_as_best. intro H.
    apply (best_one_iff _ Hr) in H as [r [Hin H1]].
    exists r; split; [assumption |]. now apply similarity_one_iff.
  - intros [r [Hin H1]]. unfold score; rewrite control_flow_as_best.
    apply (best_one_iff _ Hr). exists r; split; [assumption |].
    now apply similarity_one_iff.
  - unfold score; rewrite control_flow_as_best. intro H.
    now apply (best_zero_iff _ Hr).
  - intro H. unfold score; rewrite control_flow_as_best.
    now apply (best_zero_iff _ Hr).
Qed.

Lemma X11_control_flow_score_witness :
  calculate_control_flow_score PyRef.lib "if (a) { return 1; }"
    ["while (b) { }"; "return 2; if (c) { }"] "javascript" = 1%R
  /\ calculate_control_flow_score PyRef.lib "if (a) { return 1; }"
       ["return 2; if (c) { }"; "while (b) { }"] "javascript" = 1%R.
Proof.
  pose proof (X11_control_flow_score PyRef.lib "if (a) { return 1; }"
                ["while (b) { }"; "return 2; if (c) { }"] "javascript") as H.
  cbv zeta in H. destruct H as [_ [_ [_ [_ [Hperm [Hone _]]]]]].
  assert (H1 : calculate_control_flow_score PyRef.lib "if (a) { return 1; }"
                 ["while (b) { }"; "return 2; if (c) { }"] "javascript" = 1%R).
  { apply Hone. exists "return 2; if (c) { }". split; [right; now left |].
    intro x. vm_compute. tauto. }
  split; [exact H1 |].
  rewrite <- H1. apply Hperm. apply perm_swap.
Defined.

Lemma structural_as_best (lib : PyLib) (candidate : string)
  (references : list string) (language : string) :
  _calculate_structural_similarity lib candidate references language
  = best (fun ref =>
            similarity (_extract_code_structures lib candidate language)
                       (_extract_code_structures lib ref language))
         references.
Proof. reflexivity. Qed.

(** X12.  For a language other than python the structural matcher never
    raises: it returns the pattern-mode score, which lies between 0 and 1,
    is 0.0 for an empty reference list, is the greater of the two scores
    over two lists put together, does not depend on the order of the
    references, and is 1.0 exactly when some reference yields the same set
    of extracted names as the candidate. *)
Theorem X12_pattern_mode_score (lib : PyLib) (candidate_code : string)
  (reference_codes : list string) (language : string) :
  language <> "python" ->
  let names code := _extract_code_structures lib code language in
  let score refs := _calculate_structural_similarity lib candidate_code refs language in
  calculate_ast_matching_score lib candidate_code reference_codes language
  = Ok (score reference_codes)
  /\ (0 <= score reference_codes <= 1)%R
  /\ score [] = 0%R
  /\ (forall more, score (reference_codes ++ more)
                   = Rmax (score reference_codes) (score more))
  /\ (forall reordered, Permutation reference_codes reordered ->
                        score reordered = score reference_codes)
  /\ (score reference_codes = 1%R
      <-> exists r, In r reference_codes
                    /\ forall x, In x (names candidate_code) <-> In x (names r)).
Proof.
  intros Hl names score.
  assert (Hr : forall r, (0 <= similarity (names candidate_code) (names r) <= 1)%R)
    by (intro r; apply similarity_range).
  split.
  { unfold calculate_ast_matching_score.
    apply String.eqb_neq in Hl. now rewrite Hl. }
  split; [unfold score; rewrite structural_as_best; apply (best_range _ Hr) |].
  split; [reflexivity |].
  split; [intro more; unfold score; rewrite !structural_as_best; apply best_app |].
  split.
  { intros reordered Hp. unfold score. rewrite !structural_as_best.
    symmetry. now apply best_perm. }
  unfold score; rewrite structural_as_best. split.
  - intro H. apply (best_one_iff _ Hr) in H as [r [Hin H1]].
    exists r; split; [assumption |]. now apply similarity_one_iff.
  - intros [r [Hin H1]]. apply (best_one_iff _ Hr).
    exists r; split; [assumption |]. now apply similarity_one_iff.
Qed.

Lemma X12_pattern_mode_score_witness :
  calculate_ast_matching_score PyRef.lib "function foo(){} class Bar {}"
    ["class Baz {}"; "class Bar {} function foo(){ return 1; }"] "javascript"
  = Ok 1%R.
Proof.
  assert (Hl : "javascript" <> "python") by discriminate.
  pose proof (X12_pattern_mode_score PyRef.lib "function foo(){} class Bar {}"
                ["class Baz {}"; "class Bar {} function foo(){ return 1; }"]
                "javascript" Hl) as H.
  cbv zeta in H. destruct H as [Hok [_ [_ [_ [_ Hone]]]]].
  rewrite Hok. f_equal. apply Hone.
  exists "class Bar {} function foo(){ return 1; }". split; [right; now left |].
  intro x. vm_compute. tauto.
Defined.

(** ** Parser mode: when it raises, and the range of its score *)

Lemma python_ast_loop_range (lib : PyLib) (candidate_nodes : list string)
  (reference_codes : list string) :
  forall max_score v,
    (0 <= max_score <= 1)%R ->
    python_ast_loop lib candidate_nodes reference_codes max_score = Ok v ->
    (0 <= v <= 1)%R.
Proof.
  induction reference_codes as [| r rest IH]; intros max_score v Hm; simpl.
  - intro H; injection H as <-. exact Hm.
  - destruct (ast_parse lib r) as [tree | | e']; [| now apply IH | discriminate].
    apply IH. rewrite py_max_Rmax.
    pose proof (similarity_range candidate_nodes (_extract_ast_nodes tree)) as Hs.
    split; [apply Rle_trans with max_score; [lra | apply Rmax_l] |].
    apply Rmax_lub; lra.
Qed.

(** X13.  In parser mode the structural matcher raises exactly the
    exception that [ast.parse] raises on the candidate or, if the
    candidate parses, on the first reference that makes it raise
    something other than [SyntaxError]; a candidate with a syntax error
    never lets a reference raise.  Whenever it returns, the score lies
    between 0 and 1. *)
Theorem X13_parser_mode_errors (lib : PyLib) (candidate_code : string)
  (reference_codes : list string) :
  (forall e,
      _calculate_python_ast_score lib candidate_code reference_codes = Raise e
      <-> ast_parse lib candidate_code = ParseRaises e
          \/ (parses lib candidate_code = true
              /\ exists before bad after,
                  reference_codes = before ++ bad :: after
                  /\ ast_parse lib bad = ParseRaises e
                  /\ forall r, In r before -> raises_on_parse lib r = false))
  /\ (forall v,
         _calculate_python_ast_score lib candidate_code reference_codes = Ok v ->
         (0 <= v <= 1)%R).
Proof.
  unfold _calculate_python_ast_score, parses.
  destruct (ast_parse lib candidate_code) as [tree | | e'] eqn:Hc; split.
  - intro e. rewrite python_ast_loop_raises. split.
    + intro H. right. split; [reflexivity | exact H].
    + intros [H | [_ H]]; [discriminate | exact H].
  - intros v. apply python_ast_loop_range. lra.
  - intro e. split; [discriminate |].
    intros [H | [H _]]; discriminate.
  - intros v H. injection H as <-. lra.
  - intro e. split.
    + intro H. injection H as ->. now left.
    + intros [H | [H _]]; [injection H as ->; reflexivity | discriminate].
  - intros v H. discriminate.
Qed.

Lemma X13_parser_mode_errors_witness :
  _calculate_python_ast_score PyRef.lib "x = 1" ["("; PyRef.nul; "x = 1"]
  = Raise (ValueError "source code string cannot contain null bytes").
Proof.
  apply (X13_parser_mode_errors PyRef.lib "x = 1" ["("; PyRef.nul; "x = 1"]).
  right. split; [reflexivity |].
  exists ["("], PyRef.nul, ["x = 1"]. split; [reflexivity |].
  split; [reflexivity |].
  intros r [<- | []]. reflexivity.
Defined.

(** ** The result of [evaluate] *)

Lemma ast_matching_range (lib : PyLib) (candidate_code : string)
  (reference_codes : list string) (language : string) (v : R) :
  calculate_ast_matching_score lib candidate_code reference_codes language = Ok v ->
  (0 <= v <= 1)%R.
Proof.
  unfold calculate_ast_matching_score.
  destruct (String.eqb language "python").
  - unfold _calculate_python_ast_score.
    destruct (ast_parse lib candidate_code) as [tree | | e'].
    + apply python_ast_loop_range; lra.
    + intro H; injection H as <-; lra.
    + discriminate.
  - intro H; injection H as <-. rewrite structural_as_best.
    apply best_range. intro r; apply similarity_range.
Qed.

Lemma control_flow_range (lib : PyLib) (candidate_code : string)
  (reference_codes : list string) (language : string) :
  (0 <= calculate_control_flow_score lib candidate_code reference_codes language <= 1)%R.
Proof.
  rewrite control_flow_as_best. apply best_range. intro r; apply similarity_range.
Qed.

Lemma detect_language_cases (code : string) :
  detect_language code = "python" \/ detect_language code = "javascript"
  \/ detect_language code = "java".
Proof.
  unfold detect_language.
  destruct (existsb _ _); [now left |].
  destruct (existsb _ _); [right; now left |].
  destruct (existsb _ _); [right; now right | now left].
Qed.

(** X14.  In every result of [evaluate] the four sub-scores lie between
    0 and 1, and with non-negative weights the composite score lies
    between 0 and the sum of the weights.  The language of the result is
    the one passed in or, when none is passed, one of python, javascript
    and java. *)
Theorem X14_evaluate_ranges (lib : PyLib) (self : CodeBLEUEvaluator)
  (candidate_code : string) (reference_codes : reference_arg)
  (requested : option string) (r : EvaluationResult) :
  evaluate lib self candidate_code reference_codes requested = Ok r ->
  (0 <= bleu r <= 1)%R /\ (0 <= weighted_bleu r <= 1)%R
  /\ (0 <= ast_match r <= 1)%R /\ (0 <= control_flow r <= 1)%R
  /\ ((0 <= alpha self)%R -> (0 <= beta self)%R ->
      (0 <= gamma self)%R -> (0 <= delta self)%R ->
      (0 <= codebleu r <= alpha self + beta self + gamma self + delta self)%R)
  /\ (forall l, requested = Some l -> language r = l)
  /\ (requested = None -> In (language r) ["python"; "javascript"; "java"]).
Proof.
  unfold evaluate.
  destruct (calculate_bleu_score _ _ 4) as [b | e] eqn:Hb; simpl; [| discriminate].
  destruct (calculate_weighted_bleu_score _ _ _) as [wb | e] eqn:Hwb; simpl;
    [| discriminate].
  destruct (calculate_ast_matching_score _ _ _ _) as [a | e] eqn:Ha; simpl;
    [| discriminate].
  intro H; injection H as <-; simpl.
  apply bleu_range in Hb.
  unfold calculate_weighted_bleu_score in Hwb. apply bleu_range in Hwb.
  apply ast_matching_range in Ha.
  match goal with
  | |- context [calculate_control_flow_score ?l ?c ?rs ?lg] =>
      pose proof (control_flow_range l c rs lg) as Hcf;
      set (cf := calculate_control_flow_score l c rs lg) in *
  end.
  repeat split; try lra.
  - intros; nra.
  - intros; nra.
  - intros l ->. reflexivity.
  - intros ->.
    destruct (detect_language_cases candidate_code) as [E | [E | E]];
      rewrite E; simpl; auto.
Qed.

Lemma X14_evaluate_ranges_witness :
  exists r,
    evaluate PyRef.lib default_evaluator PyRef.src_def_f (OneRef PyRef.src_def_f) None
    = Ok r
    /\ (0 <= ast_match r <= 1)%R
    /\ In (language r) ["python"; "javascript"; "java"].
Proof.
  eexists. split; [apply evaluate_def_f |].
  destruct (X14_evaluate_ranges PyRef.lib default_evaluator PyRef.src_def_f
              (OneRef PyRef.src_def_f) None _ evaluate_def_f)
    as [_ [_ [Ha [_ [_ [_ Hl]]]]]].
  split; [exact Ha | now apply Hl].
Defined.

(** X15.  With an empty reference list [evaluate] returns a result whose
    four sub-scores and composite score are all 0.0, unless the language
    is python and [ast.parse] raises something other than [SyntaxError] on
    the candidate, in which case that exception is raised. *)
Theorem X15_evaluate_without_references (lib : PyLib) (self : CodeBLEUEvaluator)
  (candidate_code : string) (requested : option string) :
  let lang := resolved_language requested candidate_code in
  (forall e, lang = "python" ->
             ast_parse lib candidate_code = ParseRaises e ->
             evaluate lib self candidate_code (ManyRefs []) requested = Raise e)
  /\ (lang <> "python" \/ raises_on_parse lib candidate_code = false ->
      exists r,
        evaluate lib self candidate_code (ManyRefs []) requested = Ok r
        /\ bleu r = 0%R /\ weighted_bleu r = 0%R /\ ast_match r = 0%R
        /\ control_flow r = 0%R /\ codebleu r = 0%R).
Proof.
  intro lang. split.
  - intros e Hl Hp. apply evaluate_raises. fold lang. rewrite Hl.
    unfold calculate_ast_matching_score; simpl.
    unfold _calculate_python_ast_score. now rewrite Hp.
  - intro H.
    assert (Ha : calculate_ast_matching_score lib candidate_code [] lang = Ok 0%R).
    { unfold calculate_ast_matching_score.
      destruct (String.eqb lang "python") eqn:E; [| reflexivity].
      apply String.eqb_eq in E.
      destruct H as [H | H]; [contradiction |].
      unfold _calculate_python_ast_score. unfold raises_on_parse in H.
      destruct (ast_parse lib candidate_code); [reflexivity | reflexivity | discriminate]. }
    assert (Hb : calculate_bleu_score (tokenize_code lib candidate_code lang) [] 4
                 = Ok 0%R)
      by (destruct (tokenize_code lib candidate_code lang); reflexivity).
    assert (Hw : calculate_weighted_bleu_score (tokenize_code lib candidate_code lang)
                   [] lang = Ok 0%R).
    { unfold calculate_weighted_bleu_score; simpl.
      destruct (weight_tokens _ _); reflexivity. }
    eexists. split.
    + apply (evaluate_ok lib self candidate_code (ManyRefs []) requested 0 0 0);
        assumption.
    + cbn [bleu weighted_bleu ast_match control_flow codebleu reference_list].
      repeat split; try reflexivity.
      unfold calculate_control_flow_score; cbn [fold_left]. lra.
Qed.

Lemma X15_evaluate_without_references_witness :
  exists r,
    evaluate PyRef.lib default_evaluator "(" (ManyRefs []) None = Ok r
    /\ codebleu r = 0%R.
Proof.
  destruct (X15_evaluate_without_references PyRef.lib default_evaluator "(" None)
    as [_ H].
  destruct H as [r [Hr [_ [_ [_ [_ Hc]]]]]]; [right; reflexivity |].
  exists r. split; assumption.
Defined.

Section WeightVectors.

Import PrimFloat.

(** X16.  Construction has two outcomes: [ValueError], or an evaluator
    holding the four weights as given.  Only the binary64 sum of the
    weights is examined, never a weight on its own: whenever that sum is
    exactly 1.0 the weights are accepted, negative ones included; an
    infinite or NaN weight is always refused, so the weights of an
    evaluator are finite; and since the sum is rounded at each step, the
    same four weights can be refused in one order and accepted in
    another. *)
Theorem X16_init_accepts (a b g d : PrimFloat.float) :
  (init a b g d = Raise (ValueError "Weights must sum to 1.0")
   \/ init a b g d
      = Ok {| alpha := Binary64.to_R a; beta := Binary64.to_R b;
              gamma := Binary64.to_R g; delta := Binary64.to_R d |})
  /\ ((a + b + g + d)%float = 1%float ->
      init a b g d
      = Ok {| alpha := Binary64.to_R a; beta := Binary64.to_R b;
              gamma := Binary64.to_R g; delta := Binary64.to_R d |})
  /\ (Binary64.nonfinite a || Binary64.nonfinite b
      || Binary64.nonfinite g || Binary64.nonfinite d = true ->
      init a b g d = Raise (ValueError "Weights must sum to 1.0"))
  /\ (forall self,
         init a b g d = Ok self ->
         Binary64.nonfinite a = false /\ Binary64.nonfinite b = false
         /\ Binary64.nonfinite g = false /\ Binary64.nonfinite d = false)
  /\ (exists w x y z : PrimFloat.float,
         init w x y z = Raise (ValueError "Weights must sum to 1.0")
         /\ is_ok (init w y x z) = true).
Proof.
  rewrite init_cases.
  split; [| split; [| split; [| split]]].
  - destruct (Binary64.weights_accepted a b g d); [now right | now left].
  - intro Hs. now rewrite Binary64Facts.weights_sum_one.
  - intro Hn. now rewrite Binary64Facts.weights_nonfinite.
  - intros self H.
    destruct (Binary64.nonfinite a || Binary64.nonfinite b
              || Binary64.nonfinite g || Binary64.nonfinite d) eqn:Hn.
    + rewrite Binary64Facts.weights_nonfinite in H by assumption. discriminate.
    + rewrite !orb_false_iff in Hn. tauto.
  - exists 1e16%float, 1%float, (-1e16)%float, 0%float.
    rewrite !init_cases. split; vm_compute; reflexivity.
Qed.

Lemma X16_init_accepts_witness :
  init (-1)%float 1%float 0.5%float 0.5%float
  = Ok {| alpha := Binary64.to_R (-1)%float; beta := Binary64.to_R 1%float;
          gamma := Binary64.to_R 0.5%float; delta := Binary64.to_R 0.5%float |}.
Proof.
  apply (X16_init_accepts (-1)%float 1%float 0.5%float 0.5%float).
  vm_compute. reflexivity.
Defined.

End WeightVectors.

(** ** The outcome and the bookkeeping of [evaluate_dataset] *)


(** What the loop appends to [self.results]: one entry per pair that
    evaluates, carrying the position of the pair, its two texts and its
    result, in increasing order of position. *)
Lemma evaluate_loop_entries (lib : PyLib) (dataset : list (string * string)) :
  forall (self : CodeBLEUDatasetEvaluator) (i : nat)
         (individual_scores : list EvaluationResult),
  exists new,
    results (snd (evaluate_loop lib self i dataset individual_scores))
    = results self ++ new
    /\ evaluator (snd (evaluate_loop lib self i dataset individual_scores))
       = evaluator self
    /\ Forall
         (fun entry =>
            i <= index entry
            /\ nth_error dataset (index entry - i)
               = Some (generated_code entry, reference_code entry)
            /\ evaluate lib (evaluator self) (generated_code entry)
                 (OneRef (reference_code entry)) None = Ok (scores entry))
         new
    /\ StronglySorted lt (map index new).
Proof.
  induction dataset as [| [generated reference] rest IH];
    intros self i individual_scores.
  - exists []. simpl. rewrite app_nil_r. repeat split; constructor.
  - simpl.
    destruct (evaluate lib (evaluator self) generated (OneRef reference) None)
      as [sc | e] eqn:Ev.
    + destruct (IH {| evaluator := evaluator self;
                      results := results self ++
                                 [{| index := i; scores := sc;
                                     generated_code := generated;
                                     reference_code := reference |}] |}
                   (S i) (individual_scores ++ [sc]))
        as [new [Hres [Hev [Hall Hsorted]]]].
      simpl in Hres, Hev.
      exists ({| index := i; scores := sc; generated_code := generated;
                 reference_code := reference |} :: new).
      split; [rewrite Hres, <- app_assoc; reflexivity |].
      split; [exact Hev |].
      split.
      * constructor.
        -- simpl. rewrite Nat.sub_diag. repeat split; [lia | assumption].
        -- eapply Forall_impl; [| exact Hall].
           intros entry [Hi [Hnth Hok]]. simpl in Hok.
           split; [lia |]. split; [| exact Hok].
           replace (index entry - i) with (S (index entry - S i)) by lia.
           exact Hnth.
      * simpl. constructor; [assumption |].
        apply Forall_forall. intros j Hj.
        apply in_map_iff in Hj as [entry [<- Hin]].
        rewrite Forall_forall in Hall. destruct (Hall entry Hin) as [Hi _]. lia.
    + destruct (IH self (S i) individual_scores)
        as [new [Hres [Hev [Hall Hsorted]]]].
      exists new. split; [assumption |]. split; [assumption |].
      split; [| assumption].
      eapply Forall_impl; [| exact Hall].
      intros entry [Hi [Hnth Hok]].
      split; [lia |]. split; [| exact Hok].
      replace (index entry - i) with (S (index entry - S i)) by lia.
      exact Hnth.
Qed.


(** X18.  [evaluate_dataset] only appends to [self.results]: the earlier
    entries are kept, and one entry per successfully evaluated pair is
    added, in dataset order, whose [index] is the position of the pair in
    the dataset and which carries the pair's two texts and the result of
    evaluating them; a pair that raises leaves no entry. *)
Theorem X18_results_bookkeeping (lib : PyLib)
  (self : CodeBLEUDatasetEvaluator) (dataset : list (string * string)) :
  exists new,
    results (snd (evaluate_dataset lib self dataset)) = results self ++ new
    /\ map scores new = successful_scores lib (evaluator self) dataset
    /\ Forall
         (fun entry =>
            nth_error dataset (index entry)
            = Some (generated_code entry, reference_code entry)
            /\ evaluate lib (evaluator self) (generated_code entry)
                 (OneRef (reference_code entry)) None = Ok (scores entry))
         new
    /\ StronglySorted lt (map index new).
Proof.
  unfold evaluate_dataset. destruct dataset as [| p rest].
  - exists []. simpl. rewrite app_nil_r. repeat split; constructor.
  - destruct (evaluate_loop_entries lib (p :: rest) self 0 [])
      as [new [Hres [_ [Hall Hsorted]]]].
    pose proof (evaluate_loop_results lib (p :: rest) self 0 []) as Hsc.
    destruct (evaluate_loop lib self 0 (p :: rest) []) as [sc self'].
    cbn [snd] in Hres, Hsc.
    exists new.
    assert (Hsnd : results (snd (match sc with
                                 | [] => (None, self')
                                 | s0 :: ss => (Some (aggregate lib s0 ss), self')
                                 end)) = results self ++ new)
      by (destruct sc; exact Hres).
    split; [exact Hsnd |]. split.
    + rewrite Hres, map_app in Hsc. now apply app_inv_head in Hsc.
    + split; [| exact Hsorted].
      eapply Forall_impl; [| exact Hall].
      intros entry [_ [Hnth Hok]]. rewrite Nat.sub_0_r in Hnth. now split.
Qed.


(** ** The statistics of a metric *)

Lemma py_max_list_cons (v0 x : R) (vs : list R) :
  py_max_list v0 (x :: vs) = py_max_list (py_max v0 x) vs.
Proof. reflexivity. Qed.

Lemma py_max_list_spec (vs : list R) :
  forall v0, In (py_max_list v0 vs) (v0 :: vs)
             /\ forall x, In x (v0 :: vs) -> (x <= py_max_list v0 vs)%R.
Proof.
  induction vs as [| y vs IH]; intro v0.
  - split; [now left |]. intros x [<- | []]. unfold py_max_list; simpl; lra.
  - rewrite py_max_list_cons. destruct (IH (py_max v0 y)) as [Hin Hup].
    assert (Hm : (v0 <= py_max v0 y)%R /\ (y <= py_max v0 y)%R
                 /\ (py_max v0 y = v0 \/ py_max v0 y = y)).
    { rewrite py_max_Rmax. split; [apply Rmax_l |]. split; [apply Rmax_r |].
      unfold Rmax; destruct (Rle_dec v0 y); auto. }
    destruct Hm as [H0 [Hy Hc]]. split.
    + destruct Hin as [Hin | Hin]; [| right; now right].
      rewrite <- Hin. destruct Hc as [-> | ->]; [now left | right; now left].
    + intros x [<- | [<- | Hx]].
      * apply Rle_trans with (py_max v0 y); [assumption | apply Hup; now left].
      * apply Rle_trans with (py_max v0 y); [assumption | apply Hup; now left].
      * apply Hup; now right.
Qed.

Lemma py_min_list_spec (vs : list R) :
  forall v0, In (py_min_list v0 vs) (v0 :: vs)
             /\ forall x, In x (v0 :: vs) -> (py_min_list v0 vs <= x)%R.
Proof.
  induction vs as [| y vs IH]; intro v0.
  - split; [now left |]. intros x [<- | []]. unfold py_min_list; simpl; lra.
  - change (py_min_list v0 (y :: vs)) with (py_min_list (py_min v0 y) vs).
    destruct (IH (py_min v0 y)) as [Hin Hlow].
    assert (Hm : (py_min v0 y <= v0)%R /\ (py_min v0 y <= y)%R
                 /\ (py_min v0 y = v0 \/ py_min v0 y = y)).
    { rewrite py_min_Rmin. split; [apply Rmin_l |]. split; [apply Rmin_r |].
      unfold Rmin; destruct (Rle_dec v0 y); auto. }
    destruct Hm as [H0 [Hy Hc]]. split.
    + destruct Hin as [Hin | Hin]; [| right; now right].
      rewrite <- Hin. destruct Hc as [-> | ->]; [now left | right; now left].
    + intros x [<- | [<- | Hx]].
      * apply Rle_trans with (py_min v0 y); [apply Hlow; now left | assumption].
      * apply Rle_trans with (py_min v0 y); [apply Hlow; now left | assumption].
      * apply Hlow; now right.
Qed.

Lemma sum_list_bounds (l : list R) (lo hi : R) :
  (forall x, In x l -> (lo <= x <= hi)%R) ->
  (INR (List.length l) * lo <= sum_list l <= INR (List.length l) * hi)%R.
Proof.
  induction l as [| y l IH]; intro H.
  - simpl; lra.
  - change (sum_list (y :: l)) with (y + sum_list l)%R.
    rewrite length_cons, S_INR.
    assert (Hy : (lo <= y <= hi)%R) by (apply H; now left).
    assert (Hl : forall x, In x l -> (lo <= x <= hi)%R)
      by (intros; apply H; now right).
    specialize (IH Hl). lra.
Qed.

Lemma sum_list_nonneg (l : list R) :
  (forall x, In x l -> (0 <= x)%R) -> (0 <= sum_list l)%R.
Proof.
  induction l as [| y l IH]; intro H; simpl; [lra |].
  assert (0 <= y)%R by (apply H; now left).
  assert (0 <= sum_list l)%R by (apply IH; intros; apply H; now right).
  unfold sum_list in *; simpl; lra.
Qed.

(** The mean of values between 0 and 1 lies between 0 and 1. *)
Lemma mean_unit (v0 : R) (vs : list R) :
  (forall x, In x (v0 :: vs) -> (0 <= x <= 1)%R) ->
  (0 <= mean (metric_stats v0 vs) <= 1)%R.
Proof.
  intro H. unfold metric_stats; cbn [mean]. rewrite py_sum_sum_list.
  pose proof (sum_list_bounds (v0 :: vs) 0 1 H) as [Hlo Hhi].
  assert (Hn : (0 < INR (List.length (v0 :: vs)))%R)
    by (apply lt_0_INR; simpl; lia).
  split.
  - apply Rmult_le_reg_r with (r := INR (List.length (v0 :: vs))); [assumption |].
    unfold Rdiv; rewrite Rmult_assoc, Rinv_l by lra. lra.
  - apply Rmult_le_reg_r with (r := INR (List.length (v0 :: vs))); [assumption |].
    unfold Rdiv; rewrite Rmult_assoc, Rinv_l by lra. lra.
Qed.

(** So does their standard deviation. *)
Lemma std_unit (v0 : R) (vs : list R) :
  (forall x, In x (v0 :: vs) -> (0 <= x <= 1)%R) ->
  (std (metric_stats v0 vs) <= 1)%R.
Proof.
  intro H. pose proof (mean_unit v0 vs H) as Hm.
  unfold metric_stats in *; cbn [mean std] in *.
  set (values := v0 :: vs) in *.
  set (m := (py_sum values / INR (List.length values))%R) in *.
  clearbody m. rewrite py_sum_sum_list.
  assert (Hn : (0 < INR (List.length values))%R)
    by (apply lt_0_INR; simpl; lia).
  assert (Hq : forall q, In q (map (fun x => ((x - m) ^ 2)%R) values) ->
                         (0 <= q <= 1)%R).
  { intros q Hin. apply in_map_iff in Hin as [x [<- Hx]].
    specialize (H x Hx).
    replace ((x - m) ^ 2)%R with ((x - m) * (x - m))%R by ring.
    assert (Hd : (0 <= (1 - (x - m)) * (1 + (x - m)))%R)
      by (apply Rmult_le_pos; lra).
    pose proof (Rle_0_sqr (x - m)) as Hs. unfold Rsqr in Hs. lra. }
  pose proof (sum_list_bounds _ 0 1 Hq) as [_ Hhi].
  rewrite length_map in Hhi.
  rewrite <- sqrt_1. apply sqrt_le_1_alt.
  apply Rmult_le_reg_r with (r := INR (List.length values)); [assumption |].
  unfold Rdiv; rewrite Rmult_assoc, Rinv_l by lra. lra.
Qed.

(** X19.  For the values of a metric, [min] and [max] are values of the
    list that bound all of them, and [std] is not negative.  When the
    values lie between 0 and 1, as the sub-scores do, so do [mean], [min]
    and [max], and [std] is at most 1. *)
Theorem X19_metric_statistics (v0 : R) (vs : list R) :
  let stats := metric_stats v0 vs in
  In (min stats) (v0 :: vs) /\ In (max stats) (v0 :: vs)
  /\ (forall x, In x (v0 :: vs) -> (min stats <= x <= max stats)%R)
  /\ (0 <= std stats)%R
  /\ ((forall x, In x (v0 :: vs) -> (0 <= x <= 1)%R) ->
      (0 <= mean stats <= 1)%R
      /\ (0 <= min stats)%R /\ (max stats <= 1)%R
      /\ (std stats <= 1)%R).
Proof.
  intro stats.
  destruct (py_max_list_spec vs v0) as [Hmax_in Hmax].
  destruct (py_min_list_spec vs v0) as [Hmin_in Hmin].
  split; [exact Hmin_in |]. split; [exact Hmax_in |].
  split; [intros x Hx; split; [now apply Hmin | now apply Hmax] |].
  split; [apply sqrt_pos |].
  intro H.
  split; [now apply mean_unit |].
  split; [apply (H _ Hmin_in) |].
  split; [apply (H _ Hmax_in) | now apply std_unit].
Qed.

Lemma X19_metric_statistics_witness :
  (0 <= mean (metric_stats (1 / 5) [1 / 5; 1 / 5]%R) <= 1)%R
  /\ (std (metric_stats (1 / 5) [1 / 5; 1 / 5]%R) <= 1)%R.
Proof.
  destruct (X19_metric_statistics (1 / 5) [1 / 5; 1 / 5]%R)
    as [_ [_ [_ [_ H]]]].
  destruct H as [Hm [_ [_ Hs]]]; [| now split].
  intros x [<- | [<- | [<- | []]]]; lra.
Defined.

(** ** Loading a dataset *)

Lemma str_le_iff (a b : string) :
  str_le a b <-> a = b \/ OrderedTypeEx.String_as_OT.lt a b.
Proof.
  unfold str_le, String.leb.
  destruct (String.compare a b) eqn:E.
  - apply OrderedTypeEx.String_as_OT.cmp_eq in E. split; [now left | reflexivity].
  - apply OrderedTypeEx.String_as_OT.cmp_lt in E. split; [now right | reflexivity].
  - split; [discriminate |].
    intros [-> | H].
    + assert (Heq : String.compare b b = Eq)
        by now apply OrderedTypeEx.String_as_OT.cmp_eq.
      congruence.
    + apply OrderedTypeEx.String_as_OT.cmp_lt in H.
      unfold OrderedTypeEx.String_as_OT.cmp in H. congruence.
Qed.

Lemma str_le_trans (a b c : string) : str_le a b -> str_le b c -> str_le a c.
Proof.
  rewrite !str_le_iff. intros [-> | H1] [-> | H2]; auto.
  right. eapply OrderedTypeEx.String_as_OT.lt_trans; eassumption.
Qed.

Lemma str_le_total (a b : string) : str_le a b \/ str_le b a.
Proof. apply String.leb_total. Qed.

Lemma str_le_antisym (a b : string) : str_le a b -> str_le b a -> a = b.
Proof. apply String.leb_antisym. Qed.

Lemma insert_sorted_perm (x : string) (l : list string) :
  Permutation (insert_sorted x l) (x :: l).
Proof.
  induction l as [| y l IH]; simpl; [reflexivity |].
  destruct (String.leb x y); [reflexivity |].
  rewrite IH. apply perm_swap.
Qed.

Lemma sorted_perm (l : list string) : Permutation (sorted l) l.
Proof.
  induction l as [| x l IH]; simpl; [reflexivity |].
  rewrite insert_sorted_perm. now constructor.
Qed.

Lemma insert_sorted_strongly (x : string) (l : list string) :
  StronglySorted str_le l -> StronglySorted str_le (insert_sorted x l).
Proof.
  induction 1 as [| y l Hs IH Hall]; simpl.
  - constructor; constructor.
  - destruct (String.leb x y) eqn:E.
    + constructor; [now constructor |].
      constructor; [exact E |].
      eapply Forall_impl; [| exact Hall].
      intros z Hz. now apply (str_le_trans x y z).
    + constructor; [assumption |].
      assert (Hyx : str_le y x).
      { destruct (str_le_total x y) as [H | H]; [unfold str_le in H; congruence | exact H]. }
      apply Forall_forall. intros z Hz.
      apply (Permutation_in _ (insert_sorted_perm x l)) in Hz.
      destruct Hz as [<- | Hz]; [assumption |].
      rewrite Forall_forall in Hall. now apply Hall.
Qed.

Lemma sorted_strongly (l : list string) : StronglySorted str_le (sorted l).
Proof.
  induction l as [| x l IH]; simpl; [constructor |].
  now apply insert_sorted_strongly.
Qed.

Lemma strongly_sorted_unique (l : list string) :
  forall l', StronglySorted str_le l -> StronglySorted str_le l' ->
             Permutation l l' -> l = l'.
Proof.
  induction l as [| a l IH]; intros l' Hs Hs' Hp.
  - apply Permutation_nil in Hp. now subst.
  - destruct l' as [| b l'];
      [apply Permutation_sym, Permutation_nil in Hp; discriminate |].
    inversion Hs as [| ? ? Hsl Hall]; subst.
    inversion Hs' as [| ? ? Hsl' Hall']; subst.
    assert (Hab : a = b).
    { assert (Ha : In a (b :: l')) by (apply (Permutation_in _ Hp); now left).
      assert (Hb : In b (a :: l))
        by (apply (Permutation_in _ (Permutation_sym Hp)); now left).
      destruct Ha as [-> | Ha]; [reflexivity |].
      destruct Hb as [-> | Hb]; [reflexivity |].
      rewrite Forall_forall in Hall, Hall'.
      apply str_le_antisym; [now apply Hall | now apply Hall']. }
    subst b. f_equal. apply IH; try assumption.
    now apply Permutation_cons_inv in Hp.
Qed.

(** [sorted] depends only on which names are listed, not on their order. *)
Lemma sorted_of_permutation (l l' : list string) :
  Permutation l l' -> sorted l = sorted l'.
Proof.
  intro Hp. apply strongly_sorted_unique; try apply sorted_strongly.
  rewrite (sorted_perm l), (sorted_perm l'). exact Hp.
Qed.

Lemma load_pair_length (fs : FileSystem) (generated_dir reference_dir : string)
  (names : list (string * string)) :
  List.length (flat_map (load_pair fs generated_dir reference_dir) names)
  <= List.length names.
Proof.
  induction names as [| p names IH]; [reflexivity |].
  cbn [flat_map]. rewrite length_app. unfold load_pair at 1.
  destruct (isfile fs _ && isfile fs _); simpl; [| lia].
  destruct (read_text fs _); simpl; [| lia].
  destruct (read_text fs _); simpl; lia.
Qed.

(** X20.  [load_dataset_from_files] returns the empty list when either
    directory does not exist.  It raises exactly when both paths exist and
    [os.listdir] raises on one of them; a file that cannot be read never
    makes it raise.  When it returns, the dataset has at most as many
    pairs as the smaller of the two listings. *)
Theorem X20_load_dataset_errors (fs : FileSystem)
  (generated_dir reference_dir : string) :
  (path_exists fs generated_dir = false \/ path_exists fs reference_dir = false ->
   load_dataset_from_files fs generated_dir reference_dir = Ok [])
  /\ (forall e,
         load_dataset_from_files fs generated_dir reference_dir = Raise e
         <-> path_exists fs generated_dir = true
             /\ path_exists fs reference_dir = true
             /\ (listdir fs generated_dir = Raise e
                 \/ (exists names, listdir fs generated_dir = Ok names)
                    /\ listdir fs reference_dir = Raise e))
  /\ (forall dataset generated_names reference_names,
         load_dataset_from_files fs generated_dir reference_dir = Ok dataset ->
         listdir fs generated_dir = Ok generated_names ->
         listdir fs reference_dir = Ok reference_names ->
         List.length dataset
         <= Nat.min (List.length generated_names) (List.length reference_names)).
Proof.
  unfold load_dataset_from_files. split; [| split].
  - intros [H | H]; rewrite H; simpl; [reflexivity |].
    now rewrite orb_true_r.
  - intro e.
    destruct (path_exists fs generated_dir), (path_exists fs reference_dir); simpl;
      try (split; [discriminate | intros [H1 [H2 _]]; discriminate]).
    destruct (listdir fs generated_dir) as [gn | eg]; simpl.
    + destruct (listdir fs reference_dir) as [rn | er]; simpl.
      * split; [discriminate |].
        intros [_ [_ [H | [_ H]]]]; discriminate.
      * split.
        -- intro H; injection H as ->. repeat split. right. split; [now exists gn | reflexivity].
        -- intros [_ [_ [H | [_ H]]]]; [discriminate | now injection H as ->].
    + split.
      * intro H; injection H as ->. repeat split. now left.
      * intros [_ [_ [H | [[names H] _]]]]; [now injection H as -> | discriminate].
  - intros dataset gn rn H Hg Hr. rewrite Hg, Hr in H.
    destruct (negb _ || negb _); cbn [bind] in H; injection H as <-.
    + simpl; lia.
    + etransitivity; [apply load_pair_length |].
      rewrite length_combine.
      rewrite (Permutation_length (sorted_perm gn)),
        (Permutation_length (sorted_perm rn)). reflexivity.
Qed.

Lemma X20_load_dataset_errors_witness :
  load_dataset_from_files MemFS.sample "gen" "nowhere" = Ok []
  /\ load_dataset_from_files MemFS.sample "gen" "notes.txt"
     = Raise (OtherException "NotADirectoryError").
Proof.
  destruct (X20_load_dataset_errors MemFS.sample "gen" "nowhere") as [Hmissing _].
  destruct (X20_load_dataset_errors MemFS.sample "gen" "notes.txt") as [_ [Hraise _]].
  split.
  - apply Hmissing. right; reflexivity.
  - apply Hraise. split; [reflexivity |]. split; [reflexivity |].
    right. split; [eexists; reflexivity | reflexivity].
Defined.

Lemma nth_error_combine {A B : Type} (l1 : list A) (l2 : list B) (i : nat) (a : A) (b : B) :
  nth_error (combine l1 l2) i = Some (a, b) ->
  nth_error l1 i = Some a /\ nth_error l2 i = Some b.
Proof.
  revert l2 i; induction l1 as [| x l1 IH]; intros l2 i H.
  - destruct i; discriminate.
  - destruct l2 as [| y l2]; [destruct i; discriminate |].
    destruct i as [| i]; simpl in *.
    + injection H as -> ->. now split.
    + now apply IH.
Qed.

Lemma load_pairs_readable (fs : FileSystem) (generated_dir reference_dir : string)
  (text_g text_r : string -> string) (l1 : list string) :
  forall l2,
    (forall n, In n l1 ->
               isfile fs (path_join generated_dir n) = true
               /\ read_text fs (path_join generated_dir n) = Ok (text_g n)) ->
    (forall n, In n l2 ->
               isfile fs (path_join reference_dir n) = true
               /\ read_text fs (path_join reference_dir n) = Ok (text_r n)) ->
    flat_map (load_pair fs generated_dir reference_dir) (combine l1 l2)
    = combine (map text_g l1) (map text_r l2).
Proof.
  induction l1 as [| a l1 IH]; intros l2 H1 H2; [reflexivity |].
  destruct l2 as [| b l2]; [reflexivity |].
  cbn [combine flat_map map].
  destruct (H1 a (or_introl eq_refl)) as [Hfa Hta].
  destruct (H2 b (or_introl eq_refl)) as [Hfb Htb].
  unfold load_pair at 1. cbn [fst snd]. rewrite Hfa, Hfb, Hta, Htb.
  cbn [andb app]. f_equal.
  apply IH; intros; [apply H1 | apply H2]; now right.
Qed.

(** X21.  When both directories exist and can be listed, every loaded
    pair consists of the texts of the generated file and of the reference
    file that stand at the same position in the two sorted listings: files
    are matched by rank in sorted order, not by name.  If moreover every
    listed entry is a readable file, the dataset is exactly the sorted
    generated texts zipped with the sorted reference texts, the surplus
    of the longer listing being dropped. *)
Theorem X21_load_pairs_by_rank (fs : FileSystem)
  (generated_dir reference_dir : string)
  (generated_names reference_names : list string) :
  path_exists fs generated_dir = true ->
  path_exists fs reference_dir = true ->
  listdir fs generated_dir = Ok generated_names ->
  listdir fs reference_dir = Ok reference_names ->
  exists dataset,
    load_dataset_from_files fs generated_dir reference_dir = Ok dataset
    /\ (forall pair, In pair dataset ->
        exists i gen_file ref_file,
          nth_error (sorted generated_names) i = Some gen_file
          /\ nth_error (sorted reference_names) i = Some ref_file
          /\ read_text fs (path_join generated_dir gen_file) = Ok (fst pair)
          /\ read_text fs (path_join reference_dir ref_file) = Ok (snd pair))
    /\ (forall text_g text_r,
           (forall n, In n generated_names ->
                      isfile fs (path_join generated_dir n) = true
                      /\ read_text fs (path_join generated_dir n) = Ok (text_g n)) ->
           (forall n, In n reference_names ->
                      isfile fs (path_join reference_dir n) = true
                      /\ read_text fs (path_join reference_dir n) = Ok (text_r n)) ->
           dataset = combine (map text_g (sorted generated_names))
                             (map text_r (sorted reference_names)))
    /\ Permutation (sorted generated_names) generated_names
    /\ StronglySorted str_le (sorted generated_names)
    /\ Permutation (sorted reference_names) reference_names
    /\ StronglySorted str_le (sorted reference_names).
Proof.
  intros Hg Hr Hlg Hlr.
  unfold load_dataset_from_files. rewrite Hg, Hr, Hlg, Hlr. cbn [negb orb bind].
  eexists. split; [reflexivity |].
  split; [| split; [| repeat split; try apply sorted_perm; apply sorted_strongly]].
  - intros pair Hin. apply in_flat_map in Hin as [[gen_file ref_file] [Hnames Hp]].
    apply In_nth_error in Hnames as [i Hi].
    apply nth_error_combine in Hi as [Hi1 Hi2].
    exists i, gen_file, ref_file. split; [assumption |]. split; [assumption |].
    unfold load_pair in Hp. cbn [fst snd] in Hp.
    destruct (isfile fs _ && isfile fs _); [| contradiction].
    destruct (read_text fs (path_join generated_dir gen_file)) as [tg | e];
      [| contradiction].
    destruct (read_text fs (path_join reference_dir ref_file)) as [tr | e];
      [| contradiction].
    destruct Hp as [<- | []]. now split.
  - intros text_g text_r H1 H2. apply load_pairs_readable.
    + intros n Hn. apply H1. now apply (Permutation_in _ (sorted_perm _)).
    + intros n Hn. apply H2. now apply (Permutation_in _ (sorted_perm _)).
Qed.

Lemma X21_load_pairs_by_rank_witness :
  load_dataset_from_files MemFS.sample "gen" "ref"
  = Ok [("x = 1", "x = 1"); ("y = 2", "y = 3")]
  /\ forall pair,
      In pair [("x = 1", "x = 1"); ("y = 2", "y = 3")] ->
      exists i gen_file ref_file,
        nth_error (sorted ["b.py"; "a.py"; "sub"]) i = Some gen_file
        /\ nth_error (sorted ["c.py"; "a.py"; "b.py"]) i = Some ref_file
        /\ read_text MemFS.sample (path_join "gen" gen_file) = Ok (fst pair)
        /\ read_text MemFS.sample (path_join "ref" ref_file) = Ok (snd pair).
Proof.
  destruct (X21_load_pairs_by_rank MemFS.sample "gen" "ref"
              ["b.py"; "a.py"; "sub"] ["c.py"; "a.py"; "b.py"]
              eq_refl eq_refl eq_refl eq_refl) as [dataset [Hload [Hpairs _]]].
  assert (Hd : dataset = [("x = 1", "x = 1"); ("y = 2", "y = 3")]).
  { assert (Hc : load_dataset_from_files MemFS.sample "gen" "ref"
                 = Ok [("x = 1", "x = 1"); ("y = 2", "y = 3")])
      by (vm_compute; reflexivity).
    rewrite Hc in Hload. now injection Hload as <-. }
  subst dataset. split; [exact Hload | exact Hpairs].
Defined.

(** X22.  The loaded dataset does not depend on the order in which
    [os.listdir] returns the names: two file systems that hold the same
    files and list the same names in the two directories, in whatever
    order, give the same dataset. *)
Theorem X22_load_ignores_listing_order (fs fs' : FileSystem)
  (generated_dir reference_dir : string)
  (gn gn' rn rn' : list string) :
  (forall p, path_exists fs p = path_exists fs' p) ->
  (forall p, isfile fs p = isfile fs' p) ->
  (forall p, read_text fs p = read_text fs' p) ->
  listdir fs generated_dir = Ok gn -> listdir fs' generated_dir = Ok gn' ->
  listdir fs reference_dir = Ok rn -> listdir fs' reference_dir = Ok rn' ->
  Permutation gn gn' -> Permutation rn rn' ->
  load_dataset_from_files fs generated_dir reference_dir
  = load_dataset_from_files fs' generated_dir reference_dir.
Proof.
  intros He Hf Ht Hg Hg' Hr Hr' Hpg Hpr.
  unfold load_dataset_from_files.
  rewrite <- !He, Hg, Hg', Hr, Hr'.
  destruct (negb _ || negb _); [reflexivity |].
  cbn [bind]. f_equal.
  rewrite (sorted_of_permutation gn gn' Hpg), (sorted_of_permutation rn rn' Hpr).
  apply flat_map_ext. intros [gen_file ref_file].
  unfold load_pair. now rewrite <- !Hf, <- !Ht.
Qed.

Lemma X22_load_ignores_listing_order_witness :
  load_dataset_from_files MemFS.sample "gen" "ref"
  = load_dataset_from_files MemFS.sample_reordered "gen" "ref".
Proof.
  assert (Hfiles : forall p, (isfile MemFS.sample p = isfile MemFS.sample_reordered p)
                             /\ read_text MemFS.sample p
                                = read_text MemFS.sample_reordered p
                             /\ path_exists MemFS.sample p
                                = path_exists MemFS.sample_reordered p).
  { intro p. unfold MemFS.sample, MemFS.sample_reordered, MemFS.make; simpl.
    repeat match goal with
           | |- context [String.eqb p ?s] => destruct (String.eqb p s)
           end;
      repeat split; reflexivity. }
  apply (X22_load_ignores_listing_order MemFS.sample MemFS.sample_reordered
           "gen" "ref" ["b.py"; "a.py"; "sub"] ["sub"; "a.py"; "b.py"]
           ["c.py"; "a.py"; "b.py"] ["b.py"; "c.py"; "a.py"]).
  - intro p. apply Hfiles.
  - intro p. apply Hfiles.
  - intro p. apply Hfiles.
  - reflexivity.
  - reflexivity.
  - reflexivity.
  - reflexivity.
  - apply (Permutation_trans (l' := ["b.py"; "sub"; "a.py"]));
      [apply perm_skip; apply perm_swap |].
    apply (Permutation_trans (l' := ["sub"; "b.py"; "a.py"]));
      [apply perm_swap | apply perm_skip; apply perm_swap].
  - apply (Permutation_trans (l' := ["c.py"; "b.py"; "a.py"]));
      [apply perm_skip; apply perm_swap | apply perm_swap].
Defined.

(** ** Plain and weighted score of a short candidate *)

(** X23.  The two BLEU scores can disagree on a perfect match: a
    candidate of fewer than four tokens that the keyword doubling
    lengthens to at least four has plain score 0.0 against itself and
    weighted score 1.0. *)
Theorem X23_weighting_lifts_short_candidates (x : list token) (language : string) :
  List.length x < 4 ->
  4 <= List.length x
       + List.length (filter (fun token => str_in token (dict_get keywords language)) x) ->
  calculate_bleu_score x [x] 4 = Ok 0%R
  /\ calculate_weighted_bleu_score x [x] language = Ok 1%R.
Proof.
  intros Hshort Hlong. split.
  - apply (bleu_zero_precision _ _ _ 4); [lia |].
    unfold ngram_precision, _get_ngrams, ngrams_of.
    replace (List.length x + 1 - 4) with 0 by lia. reflexivity.
  - unfold calculate_weighted_bleu_score. cbn [map].
    apply bleu_member; [now left |].
    rewrite weight_tokens_length. lia.
Qed.

Lemma X23_weighting_lifts_short_candidates_witness :
  calculate_bleu_score ["return"; "x"; ";"] [["return"; "x"; ";"]] 4 = Ok 0%R
  /\ calculate_weighted_bleu_score ["return"; "x"; ";"] [["return"; "x"; ";"]]
       "javascript" = Ok 1%R.
Proof.
  apply (X23_weighting_lifts_short_candidates ["return"; "x"; ";"] "javascript").
  - simpl; lia.
  - vm_compute. lia.
Defined.
